(** * Token dashboard: table ranking, formatting and statistics

  A shallow embedding of the dashboard's front end:

  - the [TokenTable] component (sort state, comparator, sorted rows,
    row formatters),
  - the [Dashboard] component (aggregate formatters),
  - the [Home] page (the two fetch routines and the page state),

  together with the parts of the JavaScript host they call, and the
  properties of the specification proved or refuted on them. *)

From Stdlib Require Import ZArith QArith Qcanon String Ascii List Lia Bool.
From Stdlib Require Import Sorted Permutation DecimalString Qround OrderedTypeEx.
From stdpp Require Import base sorting gmap strings numbers list.

Open Scope string_scope.
Open Scope list_scope.
Open Scope Z_scope.

(** ** The JavaScript host *)

Module JS.

(** Values that reach the code: what JSON carries in a row of the
    [tokens] table (null, finite numbers, strings) and [undefined], the
    value of an absent property.  A finite number is kept as the
    rational that the double is; sums and quotients, which the host
    rounds, are the host's ([Arith]).  Strings are sequences of 8-bit
    characters; on text of ASCII characters their order is the order of
    JavaScript's strings. *)
Inductive jsval : Type :=
| JNull
| JUndefined
| JNum (q : Qc)
| JStr (s : string).

#[global] Instance jsval_eq_dec : EqDecision jsval.
Proof. solve_decision. Defined.

(** Built-ins whose result depends on the locale, the time zone or on a
    parser, and on which no property below depends, are taken from the
    host. *)
Class Host : Type := {
  (** [StringToNumber s]: the numeric value of a string, [None] for NaN. *)
  StringToNumber : string -> option Qc;
  (** [Number::toString] on a number that is not an integer below 10^21. *)
  Number_toString_host : Qc -> string;
  (** [new Date(v).toLocaleString()]. *)
  Date_toLocaleString : jsval -> string;
  (** [new Intl.NumberFormat().format(n)] in the default locale;
      [None] is NaN. *)
  NumberFormat_default_format : option Qc -> string
}.

(** The sum and the quotient of two numbers, as the host computes them:
    those of the doubles, rounded to a double.  Overflow is left out. *)
Class Arith : Type := {
  (** [x + y] *)
  Number_add : Qc -> Qc -> Qc;
  (** [x / y] *)
  Number_divide : Qc -> Qc -> Qc
}.

(** Arithmetic that does not round: that of the host wherever the exact
    sum or quotient of two doubles is a double itself, as on integers
    below 2^53 with an integer result.  A statement that names no
    arithmetic is about this one. *)
#[global] Instance exact_arithmetic : Arith :=
  {| Number_add := Qcplus; Number_divide := Qcdiv |}.

(** *** Abrupt completions *)

Inductive exn : Type :=
| TypeError (msg : string)
| RangeError (msg : string)
| FetchError (msg : string).

Inductive completion (A : Type) : Type :=
| Normal (a : A)
| Throw (e : exn).
Arguments Normal {A} a.
Arguments Throw {A} e.

#[global] Instance completion_ret : MRet completion := fun A a => Normal a.

#[global] Instance completion_bind : MBind completion := fun A B k c =>
  match c with
  | Normal a => k a
  | Throw e => Throw e
  end.

(** *** Conversions and operators *)

(** [v === null] *)
Definition is_null (v : jsval) : bool :=
  match v with JNull => true | _ => false end.

(** [v === undefined] *)
Definition is_undefined (v : jsval) : bool :=
  match v with JUndefined => true | _ => false end.

(** [ToBoolean]: null, undefined, 0 and the empty string are falsy. *)
Definition ToBoolean (v : jsval) : bool :=
  match v with
  | JNull | JUndefined => false
  | JNum q => negb (bool_decide (q = 0%Qc))
  | JStr s => negb (bool_decide (s = ""))
  end.

(** [a || b] *)
Definition or_else (a b : jsval) : jsval := if ToBoolean a then a else b.

(** [ToNumber]; [None] is NaN. *)
Definition ToNumber `{Host} (v : jsval) : option Qc :=
  match v with
  | JNull => Some 0%Qc
  | JUndefined => None
  | JNum q => Some q
  | JStr s => StringToNumber s
  end.

(** [x < y]: two strings are compared character by character, anything
    else as numbers, and a comparison with NaN is false. *)
Definition IsLessThan `{Host} (x y : jsval) : bool :=
  match x, y with
  | JStr s, JStr t => String.ltb s t
  | _, _ =>
      match ToNumber x, ToNumber y with
      | Some a, Some b => bool_decide (a < b)%Qc
      | _, _ => false
      end
  end.

(** [x > y] is [y < x]. *)
Definition IsGreaterThan `{Host} (x y : jsval) : bool := IsLessThan y x.

(** *** Array.prototype.sort

    The comparator of the table never returns 0, which ECMAScript does
    not call a consistent comparator: the order [sort] then returns is
    the engine's choice.  The model is that of an engine whose sort is
    stable and consults the comparator only through the test
    [comparefn(x, y) < 0], [x] being the element to place and [y] one
    that is placed, as V8 does: an insertion sort that takes the elements
    from left to right and puts each in front of the first placed element
    it compares below.  V8's own algorithm for short arrays follows
    ([Array_sort_short]), and the insertion sort of an engine that asks
    the comparator the other way round ([Array_sort_converse]). *)
Section ArraySort.
Context {A : Type} (comparefn : A -> A -> Z).

Fixpoint insert_placed (x : A) (placed : list A) : list A :=
  match placed with
  | [] => [x]
  | y :: rest =>
      if comparefn x y <? 0 then x :: placed
      else y :: insert_placed x rest
  end.

Definition Array_sort (l : list A) : list A :=
  fold_left (fun placed x => insert_placed x placed) l [].

(** [not_before a b]: the sort has no reason to put [b] in front of [a]. *)
Definition not_before (a b : A) : Prop := 0 <= comparefn b a.

(** What V8 runs on an array of fewer than 64 elements, the case of the
    table with its fifty rows at most: the run at the head of the array
    is found, and reversed if it descends; every further element is then
    inserted at the point that a bisection of the elements in place
    finds. *)

(** The insertion point of [pivot] between [left] and [right]. *)
Fixpoint bisect (fuel : nat) (pivot : A) (placed : list A) (left right : nat) : nat :=
  match fuel with
  | O => left
  | S fuel' =>
      if (left <? right)%nat then
        let mid := (left + (right - left) / 2)%nat in
        match placed !! mid with
        | Some y =>
            if comparefn pivot y <? 0 then bisect fuel' pivot placed left mid
            else bisect fuel' pivot placed (S mid) right
        | None => left
        end
      else left
  end.

Definition binary_insert (placed : list A) (pivot : A) : list A :=
  let left := bisect (length placed) pivot placed 0 (length placed) in
  take left placed ++ pivot :: drop left placed.

(** The elements that continue the run after [previous], and the rest. *)
Fixpoint span_run (descending : bool) (previous : A) (l : list A) : list A * list A :=
  match l with
  | [] => ([], [])
  | current :: rest =>
      if Bool.eqb (comparefn current previous <? 0) descending then
        let (run, rest') := span_run descending current rest in
        (current :: run, rest')
      else ([], l)
  end.

(** The run at the head, put in order, and the rest. *)
Definition count_and_make_run (l : list A) : list A * list A :=
  match l with
  | low :: high :: rest =>
      let descending := comparefn high low <? 0 in
      let (run, rest') := span_run descending high rest in
      (if descending then rev (low :: high :: run) else low :: high :: run, rest')
  | _ => (l, [])
  end.

Definition Array_sort_short (l : list A) : list A :=
  let (run, rest) := count_and_make_run l in
  fold_left binary_insert rest run.

(** An insertion sort that asks the comparator the other way round: an
    element moves in front of the placed elements [y], from the right,
    for which [comparefn(y, x) > 0]. *)
Fixpoint insert_from_right (x : A) (placed_rev : list A) : list A :=
  match placed_rev with
  | [] => [x]
  | y :: rest =>
      if 0 <? comparefn y x then y :: insert_from_right x rest
      else x :: placed_rev
  end.

Definition Array_sort_converse (l : list A) : list A :=
  rev (fold_left (fun placed_rev x => insert_from_right x placed_rev) l []).
End ArraySort.

(** The two ways in which the insertion sort of an engine asks the
    comparator: whether the element to place comes before a placed one,
    [comparefn(x, placed) < 0], or whether a placed one comes after it,
    [comparefn(placed, x) > 0]. *)
Inductive Engine : Type :=
| asks_new_before_placed
| asks_placed_after_new.

Definition Array_sort_on {A} (engine : Engine) (comparefn : A -> A -> Z)
    (l : list A) : list A :=
  match engine with
  | asks_new_before_placed => Array_sort comparefn l
  | asks_placed_after_new => Array_sort_converse comparefn l
  end.

(** *** Arrays as objects

    An array is a reference into a store, a finite map from references
    to element sequences, so that two names of one array see each other's
    writes. *)
Definition ref : Type := positive.


(** [[...a]]: a new array with the elements of [a]. *)
Definition spread {A} (a : ref) (h : gmap ref (list A))
  : option (ref * gmap ref (list A)) :=
  match h !! a with
  | Some l => let r := fresh (dom h) in Some (r, <[r := l]> h)
  | None => None
  end.

(** [a.sort(comparefn)]: sorts [a] in place and returns [a]. *)
Definition sort_in_place {A} (comparefn : A -> A -> Z) (a : ref)
    (h : gmap ref (list A)) : option (ref * gmap ref (list A)) :=
  match h !! a with
  | Some l => Some (a, <[a := Array_sort comparefn l]> h)
  | None => None
  end.

(** *** Decimal rendering *)

(** The character of the decimal digit [d mod 10]. *)
Definition digit_char (d : N) : ascii := ascii_of_N (48 + d mod 10).

(** The [k] low-order decimal digits of [v], most significant first. *)
Fixpoint digits_fixed (k : nat) (v : N) : list ascii :=
  match k with
  | O => []
  | S k' => digits_fixed k' (v / 10) ++ [digit_char v]
  end.

(** The decimal digits of [v], without leading zeros ("0" for zero). *)
Definition digits (v : N) : list ascii :=
  list_ascii_of_string (NilZero.string_of_uint (N.to_uint v)).

(** The integer nearest to [|q| * 10^f], the larger one on a tie. *)
Definition round_scaled (f : nat) (q : Qc) : N :=
  let num := Z.abs (Qnum q) in
  let den := Zpos (Qden q) in
  Z.to_N ((2 * num * 10 ^ Z.of_nat f + den) / (2 * den)).

(** Thousands separators: a comma before every group of three digits,
    counted from the right.  [group3_rev] works on the reversed digits,
    [k] being the size of the group under construction. *)
Fixpoint group3_rev (k : nat) (rds : list ascii) : list ascii :=
  match rds with
  | [] => []
  | d :: rest =>
      match k with
      | 3%nat => ","%char :: d :: group3_rev 1 rest
      | _ => d :: group3_rev (S k) rest
      end
  end.

Definition group3 (ds : list ascii) : list ascii :=
  rev (group3_rev 0 (rev ds)).

(** Drops up to [extra] trailing zeros ([rds] is reversed). *)
Fixpoint trim_zeros_rev (extra : nat) (rds : list ascii) : list ascii :=
  match extra, rds with
  | S e, c :: rest =>
      if Ascii.eqb c "0" then trim_zeros_rev e rest else rds
  | _, _ => rds
  end.

(** Trailing zeros are dropped as long as more than [minFD] digits remain. *)
Definition trim_zeros (minFD : nat) (ds : list ascii) : list ascii :=
  rev (trim_zeros_rev (length ds - minFD) (rev ds)).

Definition sign_of (q : Qc) : list ascii :=
  if bool_decide (q < 0)%Qc then ["-"%char] else [].

(** *** Intl.NumberFormat, locale en-US, style currency, currency USD *)

Record NumberFormat : Type := {
  minimumFractionDigits : nat;
  maximumFractionDigits : nat
}.

(** The constructor refuses digit options outside 0..100 and a minimum
    above the maximum. *)
Definition NumberFormat_USD (minFD maxFD : nat) : completion NumberFormat :=
  if (minFD <=? 100)%nat && (maxFD <=? 100)%nat && (minFD <=? maxFD)%nat then
    Normal {| minimumFractionDigits := minFD; maximumFractionDigits := maxFD |}
  else Throw (RangeError "maximumFractionDigits value is out of range.").

(** [nf.format(v)]: the number is rounded to the maximum number of
    fraction digits, half away from zero, and printed with a dollar sign,
    grouped integer digits and at least the minimum number of fraction
    digits. *)
Definition NumberFormat_format `{Host} (nf : NumberFormat) (v : jsval) : string :=
  match ToNumber v with
  | None => "$NaN"
  | Some q =>
      let maxFD := maximumFractionDigits nf in
      let n := round_scaled maxFD q in
      let scale := (10 ^ N.of_nat maxFD)%N in
      let fraction :=
        trim_zeros (minimumFractionDigits nf) (digits_fixed maxFD (n mod scale)) in
      string_of_list_ascii
        (sign_of q ++ "$"%char :: group3 (digits (n / scale))
           ++ match fraction with [] => [] | _ => "."%char :: fraction end)
  end.

(** *** Number.prototype.toString and toFixed *)

Definition Number_toString `{Host} (q : Qc) : string :=
  if bool_decide (Qden q = 1%positive) && (Z.abs (Qnum q) <? 10 ^ 21) then
    string_of_list_ascii (sign_of q ++ digits (Z.to_N (Z.abs (Qnum q))))
  else Number_toString_host q.

Definition Number_toFixed `{Host} (q : Qc) (fractionDigits : nat) : completion string :=
  if (100 <? fractionDigits)%nat then
    Throw (RangeError "toFixed() digits argument must be between 0 and 100")
  else if 10 ^ 21 * Zpos (Qden q) <=? Z.abs (Qnum q) then Normal (Number_toString q)
  else
    let n := round_scaled fractionDigits q in
    let scale := (10 ^ N.of_nat fractionDigits)%N in
    Normal (string_of_list_ascii
      (sign_of q ++ digits (n / scale)
         ++ match fractionDigits with
            | O => []
            | _ => "."%char :: digits_fixed fractionDigits (n mod scale)
            end)).

(** [v.toFixed(d)]: reading a property of null or undefined throws, and
    among the values here only numbers have the method. *)
Definition call_toFixed `{Host} (v : jsval) (d : nat) : completion jsval :=
  match v with
  | JNull | JUndefined =>
      Throw (TypeError "Cannot read properties of null or undefined (reading 'toFixed')")
  | JStr _ => Throw (TypeError "toFixed is not a function")
  | JNum q => s ← Number_toFixed q d; Normal (JStr s)
  end.

(** [v?.toFixed(d)]: [undefined] when [v] is null or undefined. *)
Definition optional_toFixed `{Host} (v : jsval) (d : nat) : completion jsval :=
  match v with
  | JNull | JUndefined => Normal JUndefined
  | _ => call_toFixed v d
  end.

(** [Math.round]: the nearest integer, the larger one on a tie. *)
Definition Math_round (x : option Qc) : option Qc :=
  match x with
  | Some q => Some (Qc_of_Z (Qfloor (q + Q2Qc (1 # 2))%Qc))
  | None => None
  end.

(** The text React shows for a child [{v}]: strings and numbers are
    printed, null and undefined show nothing. *)
Definition jsx_text `{Host} (v : jsval) : string :=
  match v with
  | JStr s => s
  | JNum q => Number_toString q
  | JNull | JUndefined => ""
  end.

End JS.

Import JS.

(** ** The token table (TokenTable component) *)

Module TokenTable.

(** A row of the [tokens] table; [None] is SQL NULL, JSON [null]. *)
Record TokenRecord : Type := {
  id : Z;
  token_address : string;
  token_name : option string;
  token_symbol : option string;
  price : option Qc;
  market_cap : option Qc;
  volume_24h : option Qc;
  bonding_curve_progress : option Qc;
  creation_time : option string;
  is_king_of_hill : bool;
  raydium_migrated : bool
}.

(** The column names [handleSort] is called with. *)
Inductive SortField : Type :=
| f_token_name
| f_token_symbol
| f_price
| f_market_cap
| f_volume_24h
| f_bonding_curve_progress
| f_creation_time.

Inductive Direction : Type := asc | desc.

Definition of_num (o : option Qc) : jsval :=
  match o with Some q => JNum q | None => JNull end.

Definition of_str (o : option string) : jsval :=
  match o with Some s => JStr s | None => JNull end.

(** [token[field]] *)
Definition get (token : TokenRecord) (field : SortField) : jsval :=
  match field with
  | f_token_name => of_str (token_name token)
  | f_token_symbol => of_str (token_symbol token)
  | f_price => of_num (price token)
  | f_market_cap => of_num (market_cap token)
  | f_volume_24h => of_num (volume_24h token)
  | f_bonding_curve_progress => of_num (bonding_curve_progress token)
  | f_creation_time => of_str (creation_time token)
  end.

(** The two [useState] cells of the component. *)
Record SortState : Type := {
  sortField : SortField;
  sortDirection : Direction
}.

Definition initial : SortState :=
  {| sortField := f_market_cap; sortDirection := desc |}.

#[global] Instance SortField_eq_dec : EqDecision SortField.
Proof. solve_decision. Defined.

#[global] Instance Direction_eq_dec : EqDecision Direction.
Proof. solve_decision. Defined.

Definition handleSort (st : SortState) (field : SortField) : SortState :=
  if decide (field = sortField st) then
    {| sortField := sortField st;
       sortDirection := if decide (sortDirection st = asc) then desc else asc |}
  else
    {| sortField := field; sortDirection := desc |}.

(** The comparator handed to [sort]. *)
Definition comparator `{Host} (st : SortState) (a b : TokenRecord) : Z :=
  if is_null (get a (sortField st)) then 1
  else if is_null (get b (sortField st)) then -1
  else if decide (sortDirection st = asc) then
    (if IsLessThan (get a (sortField st)) (get b (sortField st)) then -1 else 1)
  else
    (if IsGreaterThan (get a (sortField st)) (get b (sortField st)) then -1 else 1).

(** [[...tokens].sort(comparator)], as a function of the rows. *)
Definition sortedTokens `{Host} (st : SortState) (tokens : list TokenRecord)
  : list TokenRecord :=
  Array_sort (comparator st) tokens.

(** The same on an engine of either kind. *)
Definition sortedTokens_on `{Host} (engine : Engine) (st : SortState)
    (tokens : list TokenRecord) : list TokenRecord :=
  Array_sort_on engine (comparator st) tokens.

(** The same on the store: [tokens] names the array of the rows; the
    spread allocates the copy that [sort] then reorders. *)
Definition sortedTokens_ref `{Host} (st : SortState) (tokens : ref)
    (h : gmap ref (list TokenRecord)) : option (ref * gmap ref (list TokenRecord)) :=
  match spread tokens h with
  | Some (copy, h1) => sort_in_place (comparator st) copy h1
  | None => None
  end.

(** *** Row formatters *)

Definition formatCurrency `{Host} (value : jsval) : completion string :=
  if is_null value || is_undefined value then Normal "N/A"
  else
    nf ← NumberFormat_USD 2 6;
    Normal (NumberFormat_format nf value).

Definition formatDate `{Host} (dateString : jsval) : completion string :=
  if negb (ToBoolean dateString) then Normal "N/A"
  else Normal (Date_toLocaleString dateString).

(** [token.token_name || 'Unknown'] *)
Definition nameCell (token : TokenRecord) : jsval :=
  or_else (of_str (token_name token)) (JStr "Unknown").

(** [token.token_symbol || 'N/A'] *)
Definition symbolCell (token : TokenRecord) : jsval :=
  or_else (of_str (token_symbol token)) (JStr "N/A").

(** [progress?.toFixed(2) || 0], on any value. *)
Definition formatProgress `{Host} (progress : jsval) : completion jsval :=
  s ← optional_toFixed progress 2;
  Normal (or_else s (JNum 0%Qc)).

(** [token.bonding_curve_progress?.toFixed(2) || 0] *)
Definition progressCell `{Host} (token : TokenRecord) : completion jsval :=
  formatProgress (of_num (bonding_curve_progress token)).

(** The texts of one table row, column by column (the status badges
    apart). *)
Record Row : Type := {
  r_name : string;
  r_symbol : string;
  r_price : string;
  r_market_cap : string;
  r_volume_24h : string;
  r_progress : string;
  r_created : string
}.

Definition renderRow `{Host} (token : TokenRecord) : completion Row :=
  p ← formatCurrency (of_num (price token));
  m ← formatCurrency (of_num (market_cap token));
  v ← formatCurrency (of_num (volume_24h token));
  g ← progressCell token;
  c ← formatDate (of_str (creation_time token));
  Normal {| r_name := jsx_text (nameCell token);
            r_symbol := jsx_text (symbolCell token);
            r_price := p;
            r_market_cap := m;
            r_volume_24h := v;
            r_progress := jsx_text g +:+ "%";
            r_created := c |}.

End TokenTable.

(** ** The summary cards (Dashboard component) *)

Module Dashboard.

Record Stats : Type := {
  totalTokens : Z;
  kingsOfHill : Z;
  raydiumMigrated : Z;
  averageMarketCap : Qc
}.

Definition formatNumber `{Host} (num : jsval) : string :=
  NumberFormat_default_format (Math_round (ToNumber num)).

Definition formatCurrency `{Host} (value : jsval) : completion string :=
  nf ← NumberFormat_USD 0 0;
  Normal (NumberFormat_format nf value).

(** The four figures shown. *)
Definition render `{Host} (stats : Stats) : completion (list string) :=
  avg ← formatCurrency (JNum (averageMarketCap stats));
  Normal [ formatNumber (JNum (Qc_of_Z (totalTokens stats)));
           formatNumber (JNum (Qc_of_Z (kingsOfHill stats)));
           formatNumber (JNum (Qc_of_Z (raydiumMigrated stats)));
           avg ].

End Dashboard.

(** ** The page (Home) *)

Module Home.

Import Dashboard.

(** The [useState] cells of the page, and what was written to the
    console. *)
Record State : Type := {
  tokens : list TokenTable.TokenRecord;
  loading : bool;
  stats : Stats;
  console : list (string * exn)
}.

Definition initial : State :=
  {| tokens := [];
     loading := true;
     stats := {| totalTokens := 0; kingsOfHill := 0; raydiumMigrated := 0;
                 averageMarketCap := 0%Qc |};
     console := [] |}.

(** What a query of the data store resolves to: [{ data, error, count }],
    each of them possibly null. *)
Record Response (R : Type) : Type := {
  data : option (list R);
  error : option exn;
  count : option Z
}.
Arguments data {R} _.
Arguments error {R} _.
Arguments count {R} _.

(** A row of [select('market_cap')]. *)
Record CapRow : Type := { market_cap : option Qc }.

(** Code of the page: it reads and writes the cells and may throw. *)
Definition M (A : Type) : Type := State -> completion A * State.

#[global] Instance M_ret : MRet M := fun A a s => (Normal a, s).

#[global] Instance M_bind : MBind M := fun A B k c s =>
  match c s with
  | (Normal a, s') => k a s'
  | (Throw e, s') => (Throw e, s')
  end.

Definition throw {A} (e : exn) : M A := fun s => (Throw e, s).

(** A computation that leaves the cells alone. *)
Definition lift {A} (c : completion A) : M A := fun s => (c, s).

(** [await p]: the response the promise is fulfilled with, or the reason
    of its rejection, thrown. *)
Definition await {A} (p : completion A) : M A := lift p.

(** [try { body } catch (error) { handler(error) }] *)
Definition try_catch {A} (body : M A) (handler : exn -> M A) : M A := fun s =>
  match body s with
  | (Normal a, s') => (Normal a, s')
  | (Throw e, s') => handler e s'
  end.

(** [try { body } finally { final }] *)
Definition try_finally {A} (body : M A) (final : M unit) : M A := fun s =>
  match body s with
  | (c, s') =>
      match final s' with
      | (Normal _, s'') => (c, s'')
      | (Throw e, s'') => (Throw e, s'')
      end
  end.

Definition setTokens (v : list TokenTable.TokenRecord) : M unit := fun s =>
  (Normal (), {| tokens := v; loading := loading s; stats := stats s;
                 console := console s |}).

Definition setLoading (v : bool) : M unit := fun s =>
  (Normal (), {| tokens := tokens s; loading := v; stats := stats s;
                 console := console s |}).

Definition setStats (v : Stats) : M unit := fun s =>
  (Normal (), {| tokens := tokens s; loading := loading s; stats := v;
                 console := console s |}).

Definition console_error (msg : string) (e : exn) : M unit := fun s =>
  (Normal (), {| tokens := tokens s; loading := loading s; stats := stats s;
                 console := console s ++ [(msg, e)] |}).

(** [fetchTokens], given what the query of the fifty top rows settles
    to. *)
Definition fetchTokens
    (query : completion (Response TokenTable.TokenRecord)) : M unit :=
  try_finally
    (try_catch
       (setLoading true;;
        r ← await query;
        (match error r with Some e => throw e | None => mret () end);;
        setTokens (default [] (data r)))
       (fun e => console_error "Error fetching tokens:" e))
    (setLoading false).

(** [count || 0] *)
Definition or_0 (count : option Z) : Z :=
  match count with
  | Some n => if decide (n = 0) then 0 else n
  | None => 0
  end.

(** [marketCapData.filter(token => token.market_cap)
                  .map(token => token.market_cap)];
    calling [filter] on null throws. *)
Definition validMarketCaps (marketCapData : option (list CapRow))
  : completion (list (option Qc)) :=
  match marketCapData with
  | Some rows =>
      Normal (map market_cap
                (List.filter (fun token => ToBoolean (TokenTable.of_num (market_cap token)))
                   rows))
  | None => Throw (TypeError "Cannot read properties of null (reading 'filter')")
  end.

(** [sum + cap]; a null [cap] would count as 0. *)
Definition add `{Arith} (sum : Qc) (cap : option Qc) : Qc :=
  Number_add sum (default 0%Qc cap).

(** [validMarketCaps.length > 0
       ? validMarketCaps.reduce((sum, cap) => sum + cap, 0) / validMarketCaps.length
       : 0] *)
Definition averageMarketCap `{Arith} (validMarketCaps : list (option Qc)) : Qc :=
  if (0 <? length validMarketCaps)%nat then
    Number_divide (fold_left add validMarketCaps 0%Qc)
      (Qc_of_Z (Z.of_nat (length validMarketCaps)))
  else 0%Qc.

(** [fetchStats], given what its four queries settle to. *)
Definition fetchStats `{Arith}
    (total kings raydium : completion (Response TokenTable.TokenRecord))
    (caps : completion (Response CapRow)) : M unit :=
  try_catch
    (r1 ← await total;
     let totalTokens := count r1 in
     r2 ← await kings;
     let kingsOfHill := count r2 in
     r3 ← await raydium;
     let raydiumMigrated := count r3 in
     r4 ← await caps;
     let marketCapData := data r4 in
     valid ← lift (validMarketCaps marketCapData);
     setStats {| Dashboard.totalTokens := or_0 totalTokens;
                 Dashboard.kingsOfHill := or_0 kingsOfHill;
                 Dashboard.raydiumMigrated := or_0 raydiumMigrated;
                 Dashboard.averageMarketCap := averageMarketCap valid |})
    (fun e => console_error "Error fetching stats:" e).

End Home.

(** ** Vocabulary of the properties *)

Module Keys.

Import TokenTable.

(** The comparator as it acts on the two values of one column, [lt] being
    [<] on the type of the column. *)
Definition compare_keys {X} (lt : X -> X -> bool) (d : Direction)
    (x y : option X) : Z :=
  match x, y with
  | None, _ => 1
  | Some _, None => -1
  | Some a, Some b =>
      match d with
      | asc => if lt a b then -1 else 1
      | desc => if lt b a then -1 else 1
      end
  end.

Definition Qc_ltb (a b : Qc) : bool := bool_decide (a < b)%Qc.

(** The columns that hold numbers; the other ones hold strings. *)
Definition numeric (f : SortField) : bool :=
  match f with
  | f_price | f_market_cap | f_volume_24h | f_bonding_curve_progress => true
  | f_token_name | f_token_symbol | f_creation_time => false
  end.

Definition num_key (f : SortField) (t : TokenRecord) : option Qc :=
  match f with
  | f_price => price t
  | f_market_cap => market_cap t
  | f_volume_24h => volume_24h t
  | f_bonding_curve_progress => bonding_curve_progress t
  | _ => None
  end.

Definition str_key (f : SortField) (t : TokenRecord) : option string :=
  match f with
  | f_token_name => token_name t
  | f_token_symbol => token_symbol t
  | f_creation_time => creation_time t
  | _ => None
  end.

(** The other direction. *)
Definition opposite (d : Direction) : Direction :=
  match d with asc => desc | desc => asc end.

(** Text of ASCII characters only, as the timestamps are: each character
    is one code unit of the string of JavaScript, with the same number. *)
Definition ascii_text (s : string) : bool :=
  forallb (fun c => (N_of_ascii c <? 128)%N) (list_ascii_of_string s).

End Keys.

(** The statistics in the words of the specification. *)
Module Summary.

Import Home.

(** The values that are neither null nor zero. *)
Definition surviving (caps : list (option Qc)) : list Qc :=
  omap (fun cap =>
          match cap with
          | Some q => if decide (q = 0%Qc) then None else Some q
          | None => None
          end) caps.

(** The sum of the values, added to 0 one after the other with the [+]
    of the host. *)
Definition sum `{Arith} (l : list Qc) : Qc := fold_left Number_add l 0%Qc.

(** Sum over count, with the [/] of the host, and 0 for no value. *)
Definition average `{Arith} (caps : list (option Qc)) : Qc :=
  match surviving caps with
  | [] => 0%Qc
  | l => Number_divide (sum l) (Qc_of_Z (Z.of_nat (length l)))
  end.

(** What a count query resolves to when it succeeds. *)
Definition counted (n : option Z) : Response TokenTable.TokenRecord :=
  {| data := None; error := None; count := n |}.

(** What the query of the market capitalisations resolves to when it
    succeeds. *)
Definition listed (caps : list (option Qc)) : Response CapRow :=
  {| data := Some (Build_CapRow <$> caps); error := None; count := None |}.

(** What a query resolves to when the data store reports a failure. *)
Definition refused {R} (e : exn) : Response R :=
  {| data := None; error := Some e; count := None |}.

(** A query fails when its promise is rejected or when it resolves with
    an error. *)
Definition failed {R} (query : completion (Response R)) : Prop :=
  match query with
  | Throw _ => True
  | Normal r => is_Some (error r)
  end.

End Summary.

(** Reading an amount of money back. *)
Module Money.

Definition is_digit (c : ascii) : bool :=
  ((48 <=? N_of_ascii c) && (N_of_ascii c <=? 57))%N.

Definition in_integer (c : ascii) : bool := is_digit c || Ascii.eqb c ",".

(** What follows the digits and commas at the head of [cs]. *)
Fixpoint after_integer (cs : list ascii) : list ascii :=
  match cs with
  | c :: rest => if in_integer c then after_integer rest else cs
  | [] => []
  end.

(** [fraction_digits s] is [Some k] when [s] is an amount in US dollars
    with [k] fraction digits: an optional minus sign, the dollar sign, a
    digit, further digits and commas, and for [k > 0] a point and [k]
    digits. *)
Definition fraction_digits (s : string) : option nat :=
  let cs := list_ascii_of_string s in
  let unsigned :=
    match cs with
    | c :: rest => if Ascii.eqb c "-" then rest else cs
    | [] => []
    end in
  match unsigned with
  | c :: d :: rest =>
      if Ascii.eqb c "$" && is_digit d then
        match after_integer rest with
        | [] => Some O
        | p :: fraction =>
            if Ascii.eqb p "." && forallb is_digit fraction
               && negb (Nat.eqb (length fraction) 0)
            then Some (length fraction) else None
        end
      else None
  | _ => None
  end.

End Money.

(** Sample data, on which the statements are tried. *)
Module Sample.

Import TokenTable.

Definition host : Host :=
  {| StringToNumber := fun _ => None;
     Number_toString_host := fun _ => "0.5";
     Date_toLocaleString := fun _ => "1/1/2025, 12:00:00 AM";
     NumberFormat_default_format := fun _ => "0" |}.

Definition token (i : Z) (name : option string) (cap : option Z) : TokenRecord :=
  {| id := i;
     token_address := "So11111111111111111111111111111111111111112";
     token_name := name;
     token_symbol := name;
     price := None;
     market_cap := Qc_of_Z <$> cap;
     volume_24h := None;
     bonding_curve_progress := None;
     creation_time := None;
     is_king_of_hill := false;
     raydium_migrated := false |}.

(** Two rows with one market capitalisation, one without any, and one
    below the others. *)
Definition rows : list TokenRecord :=
  [ token 1 (Some "alpha") (Some 500);
    token 2 None None;
    token 3 (Some "beta") (Some 500);
    token 4 (Some "gamma") (Some 20) ].

Definition by_cap_desc : SortState := TokenTable.initial.

Definition by_cap_asc : SortState :=
  {| sortField := f_market_cap; sortDirection := asc |}.

Definition by_name_asc : SortState :=
  {| sortField := f_token_name; sortDirection := asc |}.

(** A page that has shown its rows and its statistics once. *)
Definition shown : Home.State :=
  {| Home.tokens := rows;
     Home.loading := false;
     Home.stats := {| Dashboard.totalTokens := 120;
                      Dashboard.kingsOfHill := 3;
                      Dashboard.raydiumMigrated := 40;
                      Dashboard.averageMarketCap := Qc_of_Z 750000 |};
     Home.console := [] |}.

Definition outage : exn := FetchError "TypeError: Failed to fetch".

End Sample.

(** ** What the components render *)

Module TableView.

Import TokenTable.

(** [String(v)], as a template literal applies it. *)
Definition ToString `{Host} (v : jsval) : string :=
  match v with
  | JNull => "null"
  | JUndefined => "undefined"
  | JNum q => Number_toString q
  | JStr s => s
  end.

(** The sortable header cells, from left to right: the column that a
    click selects, and the label. *)
Definition columns : list (SortField * string) :=
  [ (f_token_name, "Token Name");
    (f_token_symbol, "Symbol");
    (f_price, "Price");
    (f_market_cap, "Market Cap");
    (f_volume_24h, "24h Volume");
    (f_bonding_curve_progress, "Bonding Curve");
    (f_creation_time, "Created") ].

(** [sortField === field && <span>{sortDirection === 'asc' ? ' ↑' : ' ↓'}</span>] *)
Definition indicator (st : SortState) (field : SortField) : option string :=
  if decide (sortField st = field) then
    Some (if decide (sortDirection st = asc) then " ↑" else " ↓")
  else None.

Definition header (st : SortState) (column : SortField * string) : string :=
  column.2 +:+ default "" (indicator st column.1).

(** The header row; the last cell cannot be clicked. *)
Definition headers (st : SortState) : list string :=
  (header st <$> columns) ++ ["Status"].

(** The state after the header cells [clicks] were clicked one after the
    other. *)
Definition clicked (st : SortState) (clicks : list SortField) : SortState :=
  fold_left handleSort clicks st.

(** One [<tr>] of the body. *)
Record TableRow : Type := {
  key : Z;
  href : string;
  cells : Row;
  barWidth : string;
  badges : list string
}.

Definition renderTableRow `{Host} (token : TokenRecord) : completion TableRow :=
  texts ← renderRow token;
  Normal {| key := id token;
            href := "/tokens/" +:+ token_address token;
            cells := texts;
            barWidth :=
              ToString (or_else (of_num (bonding_curve_progress token)) (JNum 0%Qc))
              +:+ "%";
            badges :=
              (if is_king_of_hill token then ["King"] else [])
              ++ (if raydium_migrated token then ["Raydium"] else []) |}.

(** [l.map(f)], where [f] may throw: the elements are taken in order and
    the first exception ends the loop. *)
Fixpoint Array_map {A B} (f : A -> completion B) (l : list A) : completion (list B) :=
  match l with
  | [] => Normal []
  | x :: rest =>
      y ← f x;
      ys ← Array_map f rest;
      Normal (y :: ys)
  end.

(** The table: the header row and [sortedTokens.map(...)]. *)
Definition render `{Host} (st : SortState) (tokens : list TokenRecord)
  : completion (list string * list TableRow) :=
  rows ← Array_map renderTableRow (sortedTokens st tokens);
  Normal (headers st, rows).

End TableView.

Module HomeView.

(** What stands under "Top Tokens". *)
Inductive TopTokens : Type :=
| LoadingText (text : string)
| Table (headers : list string) (rows : list TableView.TableRow).

(** The page: the four figures of the summary, and the loading text or
    the table, which is mounted with its initial sort state or has the
    state [sort]. *)
Definition render `{Host} (st : Home.State) (sort : TokenTable.SortState)
  : completion (list string * TopTokens) :=
  figures ← Dashboard.render (Home.stats st);
  if Home.loading st then Normal (figures, LoadingText "Loading tokens...")
  else
    t ← TableView.render sort (Home.tokens st);
    Normal (figures, Table t.1 t.2).

(** The effect run on mount calls [fetchTokens()] and [fetchStats()], in
    that order, and waits for neither; what they throw is not seen. *)
Definition mount `{Arith}
    (tokens total kings raydium : completion (Home.Response TokenTable.TokenRecord))
    (caps : completion (Home.Response Home.CapRow)) (st : Home.State) : Home.State :=
  snd (Home.fetchStats total kings raydium caps (snd (Home.fetchTokens tokens st))).

(** The same with the two routines completing in the other order. *)
Definition mount_stats_first `{Arith}
    (tokens total kings raydium : completion (Home.Response TokenTable.TokenRecord))
    (caps : completion (Home.Response Home.CapRow)) (st : Home.State) : Home.State :=
  snd (Home.fetchTokens tokens (snd (Home.fetchStats total kings raydium caps st))).

End HomeView.

(** Reading a decimal numeral back. *)
Module Decimal_text.

(** What follows the digits at the head of [cs]. *)
Fixpoint after_digits (cs : list ascii) : list ascii :=
  match cs with
  | c :: rest => if Money.is_digit c then after_digits rest else cs
  | [] => []
  end.

(** [decimal_places s] is [Some k] when [s] is a decimal numeral with [k]
    digits after the point: an optional minus sign, a digit, further
    digits, and for [k > 0] a point and [k] digits. *)
Definition decimal_places (s : string) : option nat :=
  let cs := list_ascii_of_string s in
  let unsigned :=
    match cs with
    | c :: rest => if Ascii.eqb c "-" then rest else cs
    | [] => []
    end in
  match unsigned with
  | d :: rest =>
      if Money.is_digit d then
        match after_digits rest with
        | [] => Some O
        | p :: fraction =>
            if Ascii.eqb p "." && forallb Money.is_digit fraction
               && negb (Nat.eqb (length fraction) 0)
            then Some (length fraction) else None
        end
      else None
  | [] => None
  end.

End Decimal_text.

(** More sample data. *)
Module Sample_rows.

Import TokenTable.

(** Rows in the order of the initial sort state, no two with the same
    market capitalisation. *)
Definition descending : list TokenRecord :=
  [ Sample.token 1 (Some "alpha") (Some 900);
    Sample.token 2 (Some "beta") (Some 500);
    Sample.token 3 (Some "gamma") (Some 20);
    Sample.token 4 None None ].

(** Rows with a market capitalisation each, no two the same. *)
Definition distinct : list TokenRecord :=
  [ Sample.token 1 (Some "alpha") (Some 500);
    Sample.token 2 (Some "beta") (Some 900);
    Sample.token 3 (Some "gamma") (Some 20) ].

Definition answered : Home.Response TokenRecord :=
  {| Home.data := Some Sample.rows; Home.error := None; Home.count := None |}.

End Sample_rows.

(** * Properties *)

(** ** The sort of the host *)

Lemma StronglySorted_lookup_lt {A} (R : A -> A -> Prop) (l : list A) i j a b :
  StronglySorted R l -> l !! i = Some a -> l !! j = Some b -> (i < j)%nat ->
  R a b.
Proof.
  intros Hs Hi Hj Hlt. rewrite <- (take_drop j l) in Hs.
  eapply StronglySorted_app_1_elem_of; [exact Hs| |].
  - apply elem_of_take. eauto.
  - apply (list_elem_of_lookup_2 _ 0%nat). by rewrite lookup_drop, Nat.add_0_r.
Qed.

Section SortTheory.
Context {A : Type} (cmp : A -> A -> Z).

Lemma insert_placed_split x placed :
  exists l1 l2,
    placed = l1 ++ l2 /\ insert_placed cmp x placed = l1 ++ x :: l2 /\
    Forall (fun y => not_before cmp y x) l1 /\
    (forall y, head l2 = Some y -> cmp x y < 0).
Proof.
  induction placed as [|y rest IH]; simpl.
  - exists [], []. repeat split; [constructor | discriminate].
  - destruct (cmp x y <? 0) eqn:E.
    + exists [], (y :: rest). repeat split; [constructor |].
      simpl. intros ? [= <-]. lia.
    + destruct IH as (l1 & l2 & -> & -> & Hall & Hhd).
      exists (y :: l1), l2. repeat split; [|done].
      constructor; [unfold not_before; lia | done].
Qed.

Lemma Array_sort_snoc l x :
  Array_sort cmp (l ++ [x]) = insert_placed cmp x (Array_sort cmp l).
Proof. unfold Array_sort. by rewrite fold_left_app. Qed.

Lemma insert_placed_perm x placed : insert_placed cmp x placed ≡ₚ x :: placed.
Proof.
  destruct (insert_placed_split x placed) as (l1 & l2 & -> & -> & _).
  by rewrite Permutation_middle.
Qed.

Lemma Array_sort_perm l : Array_sort cmp l ≡ₚ l.
Proof.
  induction l as [|x l IH] using rev_ind; [done|].
  rewrite Array_sort_snoc, insert_placed_perm, IH.
  by rewrite Permutation_cons_append.
Qed.

Lemma insert_placed_last x placed :
  Forall (fun y => not_before cmp y x) placed ->
  insert_placed cmp x placed = placed ++ [x].
Proof.
  induction 1 as [|y rest Hy _ IH]; simpl; [done|].
  unfold not_before in Hy.
  destruct (cmp x y <? 0) eqn:E; [lia|]. by rewrite IH.
Qed.

(** A sequence that is in order already is returned as it is. *)
Lemma Array_sort_sorted_id l :
  StronglySorted (not_before cmp) l -> Array_sort cmp l = l.
Proof.
  induction l as [|x l IH] using rev_ind; [done|].
  rewrite StronglySorted_app. intros (Hall & Hs & _).
  rewrite Array_sort_snoc, (IH Hs). apply insert_placed_last.
  apply Forall_forall. intros y Hy. apply Hall; [done|]. apply list_elem_of_here.
Qed.

(** The test [cmp x y < 0] is a strict weak order. *)
Hypothesis cmp_asym : forall x y, cmp x y < 0 -> 0 <= cmp y x.
Hypothesis ord_trans :
  forall x y z, not_before cmp x y -> not_before cmp y z -> not_before cmp x z.

Lemma insert_placed_sorted x placed :
  StronglySorted (not_before cmp) placed ->
  StronglySorted (not_before cmp) (insert_placed cmp x placed).
Proof.
  intros Hs.
  destruct (insert_placed_split x placed) as (l1 & l2 & -> & -> & Hall & Hhd).
  rewrite StronglySorted_app in Hs. destruct Hs as (H12 & H1 & H2).
  assert (Hx2 : Forall (not_before cmp x) l2).
  { destruct l2 as [|y l2]; [constructor|].
    assert (Hxy : not_before cmp x y) by (apply cmp_asym, Hhd; done).
    apply StronglySorted_cons in H2 as [Hy _].
    constructor; [done|].
    eapply Forall_impl; [exact Hy|]. intros z Hz. by eapply ord_trans. }
  rewrite Forall_forall in Hall, Hx2.
  rewrite StronglySorted_app, StronglySorted_cons.
  split_and!; [|done|by apply Forall_forall|done].
  intros y1 y2 Hy1 [->|Hy2]%elem_of_cons; auto.
Qed.

Lemma Array_sort_sorted l : StronglySorted (not_before cmp) (Array_sort cmp l).
Proof.
  induction l as [|x l IH] using rev_ind; [constructor|].
  rewrite Array_sort_snoc. by apply insert_placed_sorted.
Qed.


Section Stable.
Context (P : A -> Prop) `{!forall x, Decision (P x)}.


Hypothesis same_class : forall x y, P x -> P y -> 0 <= cmp x y.


End Stable.

End SortTheory.

(** ** The sort of V8 on short arrays computes [Array_sort] *)

Section ShortArrays.
Context {A : Type} (cmp : A -> A -> Z).
Hypothesis cmp_asym : forall x y, cmp x y < 0 -> 0 <= cmp y x.
Hypothesis ord_trans :
  forall x y z, not_before cmp x y -> not_before cmp y z -> not_before cmp x z.

(** Where the placed elements are cut between those the pivot does not go
    in front of and those it does, the insertion puts the pivot at the
    cut. *)
Lemma insert_placed_at_cut x l1 l2 :
  Forall (fun y => not_before cmp y x) l1 ->
  (forall y, head l2 = Some y -> cmp x y < 0) ->
  insert_placed cmp x (l1 ++ l2) = l1 ++ x :: l2.
Proof.
  intros Hl1 Hl2. induction Hl1 as [|y l1 Hy _ IH]; simpl.
  - destruct l2 as [|y l2]; [done|]. simpl.
    specialize (Hl2 y eq_refl). by destruct (cmp x y <? 0) eqn:E; [|lia].
  - unfold not_before in Hy. destruct (cmp x y <? 0) eqn:E; [lia|]. by rewrite IH.
Qed.

Lemma bisect_cut fuel pivot placed left right :
  (right - left <= fuel)%nat -> (left <= right <= length placed)%nat ->
  (forall i y, (i < left)%nat -> placed !! i = Some y -> 0 <= cmp pivot y) ->
  (forall i y, (right <= i)%nat -> placed !! i = Some y -> cmp pivot y < 0) ->
  (forall i j yi yj, (i <= j)%nat -> placed !! i = Some yi -> placed !! j = Some yj ->
                     cmp pivot yi < 0 -> cmp pivot yj < 0) ->
  (bisect cmp fuel pivot placed left right <= length placed)%nat /\
  (forall i y, (i < bisect cmp fuel pivot placed left right)%nat ->
               placed !! i = Some y -> 0 <= cmp pivot y) /\
  (forall i y, (bisect cmp fuel pivot placed left right <= i)%nat ->
               placed !! i = Some y -> cmp pivot y < 0).
Proof.
  intros Hfuel Hlr Hlow Hhigh Hmono.
  revert left right Hfuel Hlr Hlow Hhigh.
  induction fuel as [|fuel IH]; intros left right Hfuel Hlr Hlow Hhigh; cbn [bisect].
  - assert (left = right) as -> by lia. split_and!; [lia|done..].
  - destruct (left <? right)%nat eqn:Elr.
    2:{ apply Nat.ltb_ge in Elr. assert (left = right) as -> by lia.
        split_and!; [lia|done..]. }
    apply Nat.ltb_lt in Elr.
    set (mid := (left + (right - left) / 2)%nat).
    assert (Hmid : (left <= mid < right)%nat).
    { subst mid.
      pose proof (Nat.Div0.div_lt_upper_bound (right - left) 2 (right - left)).
      lia. }
    destruct (placed !! mid) as [y|] eqn:Ey.
    2:{ apply lookup_ge_None in Ey. lia. }
    destruct (cmp pivot y <? 0) eqn:E.
    + apply IH; [lia | lia | done |].
      intros i yi Hi Hyi. apply (Hmono mid i y yi); [lia|done|done|lia].
    + apply IH; [lia | lia | | done].
      intros i yi Hi Hyi.
      destruct (Z.ltb_spec (cmp pivot yi) 0) as [Hneg|]; [|done].
      assert (cmp pivot y < 0); [|lia].
      apply (Hmono i mid yi y); [lia|done..].
Qed.

Lemma binary_insert_sorted placed pivot :
  StronglySorted (not_before cmp) placed ->
  binary_insert cmp placed pivot = insert_placed cmp pivot placed.
Proof.
  intros Hs. unfold binary_insert.
  destruct (bisect_cut (length placed) pivot placed 0 (length placed))
    as (Hle & Hlow & Hhigh); [lia | lia | | | |].
  - intros i y Hi. lia.
  - intros i y Hi Hy. apply lookup_lt_Some in Hy. lia.
  - intros i j yi yj Hij Hi Hj Hneg.
    destruct (decide (i = j)) as [->|Hne]; [congruence|].
    assert (Hord : not_before cmp yi yj).
    { eapply StronglySorted_lookup_lt; [exact Hs|exact Hi|exact Hj|lia]. }
    destruct (Z.ltb_spec (cmp pivot yj) 0) as [|Hge]; [done|].
    assert (not_before cmp yi pivot) by (by eapply ord_trans).
    unfold not_before in *. lia.
  - set (p := bisect cmp (length placed) pivot placed 0 (length placed)) in *.
    rewrite <- (take_drop p placed) at 3.
    symmetry. apply insert_placed_at_cut.
    + apply Forall_forall. intros y [i [Hy Hi]]%elem_of_take.
      by apply (Hlow i).
    + intros y Hy. apply (Hhigh p); [lia|].
      destruct (drop p placed) as [|z rest] eqn:Ed; [done|].
      simpl in Hy. injection Hy as ->.
      assert (Hz : drop p placed !! 0%nat = Some y) by by rewrite Ed.
      by rewrite lookup_drop, Nat.add_0_r in Hz.
Qed.

Lemma fold_binary_insert rest placed :
  StronglySorted (not_before cmp) placed ->
  fold_left (binary_insert cmp) rest placed
  = fold_left (fun placed x => insert_placed cmp x placed) rest placed.
Proof.
  revert placed. induction rest as [|x rest IH]; intros placed Hs; simpl; [done|].
  rewrite binary_insert_sorted by done.
  apply IH. by apply insert_placed_sorted.
Qed.

(** An ascending run is in order, a descending run is in order once
    reversed. *)
Lemma span_run_ascending previous l run rest placed :
  span_run cmp false previous l = (run, rest) ->
  Array_sort cmp (placed ++ [previous]) = placed ++ [previous] ->
  l = run ++ rest /\
  Array_sort cmp (placed ++ previous :: run) = placed ++ previous :: run.
Proof.
  revert previous run rest placed.
  induction l as [|current l IH]; intros previous run rest placed; simpl.
  - intros [= <- <-] Hp. by rewrite app_nil_r.
  - destruct (cmp current previous <? 0) eqn:E; simpl.
    + intros [= <- <-] Hp. done.
    + destruct (span_run cmp false current l) as [run' rest'] eqn:Er.
      intros [= <- <-] Hp.
      destruct (IH current run' rest' (placed ++ [previous]) Er) as [-> Hs].
      * rewrite Array_sort_snoc, Hp. apply insert_placed_last.
        assert (Hsorted : StronglySorted (not_before cmp) (placed ++ [previous])).
        { rewrite <- Hp. by apply Array_sort_sorted. }
        apply StronglySorted_app in Hsorted as (Hall & _ & _).
        assert (Hlast : not_before cmp previous current)
          by (unfold not_before; lia).
        apply Forall_app; split; [|by repeat constructor].
        apply Forall_forall. intros y Hy.
        eapply ord_trans; [|exact Hlast]. apply Hall; [done|]. left.
      * split; [done|]. by rewrite <- !app_assoc in Hs.
Qed.

Lemma span_run_descending previous l run rest placed :
  span_run cmp true previous l = (run, rest) ->
  Array_sort cmp (placed ++ [previous]) = rev (placed ++ [previous]) ->
  l = run ++ rest /\
  Array_sort cmp (placed ++ previous :: run) = rev (placed ++ previous :: run).
Proof.
  revert previous run rest placed.
  induction l as [|current l IH]; intros previous run rest placed; simpl.
  - intros [= <- <-] Hp. by rewrite app_nil_r.
  - destruct (cmp current previous <? 0) eqn:E; simpl.
    + destruct (span_run cmp true current l) as [run' rest'] eqn:Er.
      intros [= <- <-] Hp.
      destruct (IH current run' rest' (placed ++ [previous]) Er) as [-> Hs].
      * rewrite Array_sort_snoc, Hp, !rev_app_distr. simpl. by rewrite E.
      * split; [done|]. by rewrite <- !app_assoc in Hs.
    + intros [= <- <-] Hp. done.
Qed.

Lemma count_and_make_run_sorted l run rest :
  count_and_make_run cmp l = (run, rest) ->
  exists head, l = head ++ rest /\ Array_sort cmp head = run.
Proof.
  destruct l as [|low [|high l]]; simpl.
  - intros [= <- <-]. by exists [].
  - intros [= <- <-]. by exists [low].
  - destruct (cmp high low <? 0) eqn:E;
      destruct (span_run cmp _ high l) as [run' rest'] eqn:Er;
      intros [= <- <-].
    + destruct (span_run_descending high l run' rest' [low] Er) as [-> Hs].
      { unfold Array_sort; simpl. by rewrite E. }
      exists (low :: high :: run'). split; [done|]. exact Hs.
    + destruct (span_run_ascending high l run' rest' [low] Er) as [-> Hs].
      { unfold Array_sort; simpl. by rewrite E. }
      exists (low :: high :: run'). split; [done|]. exact Hs.
Qed.

(** On a comparator whose test [< 0] is a strict weak order, V8's sort of
    a short array returns what [Array_sort] returns. *)
Lemma Array_sort_short_correct l : Array_sort_short cmp l = Array_sort cmp l.
Proof.
  unfold Array_sort_short.
  destruct (count_and_make_run cmp l) as [run rest] eqn:Er.
  destruct (count_and_make_run_sorted l run rest Er) as (head & -> & <-).
  rewrite fold_binary_insert by (by apply Array_sort_sorted).
  unfold Array_sort. by rewrite fold_left_app.
Qed.

End ShortArrays.

(** ** The comparator *)

Section KeyOrder.
Context {X : Type} (lt : X -> X -> bool).
Hypothesis lt_asym : forall a b, lt a b = true -> lt b a = false.
Hypothesis lt_negtrans :
  forall a b c, lt b a = false -> lt c b = false -> lt c a = false.

Import TokenTable Keys.

Lemma compare_keys_asym d x y :
  compare_keys lt d x y < 0 -> 0 <= compare_keys lt d y x.
Proof.
  destruct x as [a|], y as [b|], d; simpl; try lia;
    destruct (lt a b) eqn:E1, (lt b a) eqn:E2; try lia;
    apply lt_asym in E1 || apply lt_asym in E2; congruence.
Qed.

Lemma compare_keys_trans d x y z :
  0 <= compare_keys lt d y x -> 0 <= compare_keys lt d z y ->
  0 <= compare_keys lt d z x.
Proof.
  destruct x as [a|], y as [b|], z as [c|], d; simpl; try lia.
  - destruct (lt b a) eqn:E1, (lt c b) eqn:E2; try lia.
    by rewrite (lt_negtrans a b c).
  - destruct (lt a b) eqn:E1, (lt b c) eqn:E2; try lia.
    by rewrite (lt_negtrans c b a).
Qed.

Lemma compare_keys_values d x y :
  compare_keys lt d x y = 1 \/ compare_keys lt d x y = -1.
Proof.
  destruct x as [a|], y as [b|], d; simpl; auto;
    match goal with |- context [if ?c then _ else _] => destruct c end; auto.
Qed.

Lemma compare_keys_tie d x :
  (forall a, lt a a = false) -> compare_keys lt d x x = 1.
Proof. intros Hirr. destruct x as [a|], d; simpl; by rewrite ?Hirr. Qed.

End KeyOrder.

Lemma Qc_ltb_asym a b : Keys.Qc_ltb a b = true -> Keys.Qc_ltb b a = false.
Proof.
  unfold Keys.Qc_ltb. rewrite bool_decide_eq_true, bool_decide_eq_false.
  intros H1 H2. by apply (Qclt_not_le _ _ H1), Qclt_le_weak.
Qed.

Lemma Qc_ltb_negtrans a b c :
  Keys.Qc_ltb b a = false -> Keys.Qc_ltb c b = false -> Keys.Qc_ltb c a = false.
Proof.
  unfold Keys.Qc_ltb. rewrite !bool_decide_eq_false.
  intros H1%Qcnot_lt_le H2%Qcnot_lt_le. apply Qcle_not_lt.
  by apply Qcle_trans with b.
Qed.

Lemma Qc_ltb_irrefl a : Keys.Qc_ltb a a = false.
Proof.
  unfold Keys.Qc_ltb. apply bool_decide_eq_false, Qcle_not_lt, Qcle_refl.
Qed.

Lemma String_ltb_lt s t : String.ltb s t = true <-> String_as_OT.lt s t.
Proof.
  rewrite <- String_as_OT.cmp_lt. unfold String.ltb, String_as_OT.cmp.
  destruct (String.compare s t); split; congruence.
Qed.

Lemma String_ltb_irrefl s : String.ltb s s = false.
Proof.
  apply not_true_is_false. rewrite String_ltb_lt.
  intros H. by apply String_as_OT.lt_not_eq in H.
Qed.

Lemma String_ltb_asym s t : String.ltb s t = true -> String.ltb t s = false.
Proof.
  intros H1. apply not_true_is_false. intros H2.
  rewrite String_ltb_lt in H1, H2.
  by apply (String_as_OT.lt_not_eq _ _ (String_as_OT.lt_trans _ _ _ H1 H2)).
Qed.

Lemma String_ltb_negtrans a b c :
  String.ltb b a = false -> String.ltb c b = false -> String.ltb c a = false.
Proof.
  intros H1 H2. apply not_true_is_false. intros H3.
  destruct (String.compare c b) eqn:E.
  - apply String_as_OT.cmp_eq in E. subst. congruence.
  - unfold String.ltb in H2. by rewrite E in H2.
  - assert (Hbc : String.ltb b c = true).
    { unfold String.ltb. rewrite String.compare_antisym, E. done. }
    rewrite String_ltb_lt in Hbc, H3.
    pose proof (String_as_OT.lt_trans _ _ _ Hbc H3) as Hba.
    rewrite <- String_ltb_lt in Hba. congruence.
Qed.

Section Comparator.
Context `{Host}.
Import TokenTable Keys.

Lemma get_numeric f t : numeric f = true -> get t f = of_num (num_key f t).
Proof. by destruct f. Qed.

Lemma get_string f t : numeric f = false -> get t f = of_str (str_key f t).
Proof. by destruct f. Qed.

(** On a column the comparator is [compare_keys] at the type of the
    column. *)
Lemma comparator_keys st a b :
  comparator st a b =
    if numeric (sortField st) then
      compare_keys Qc_ltb (sortDirection st)
        (num_key (sortField st) a) (num_key (sortField st) b)
    else
      compare_keys String.ltb (sortDirection st)
        (str_key (sortField st) a) (str_key (sortField st) b).
Proof.
  unfold comparator. destruct (numeric (sortField st)) eqn:E.
  - rewrite !get_numeric by done.
    destruct (num_key _ a), (num_key _ b), (sortDirection st); done.
  - rewrite !get_string by done.
    destruct (str_key _ a), (str_key _ b), (sortDirection st); done.
Qed.

Lemma comparator_asym st a b :
  comparator st a b < 0 -> 0 <= comparator st b a.
Proof.
  rewrite !comparator_keys. destruct (numeric _).
  - apply compare_keys_asym, Qc_ltb_asym.
  - apply compare_keys_asym, String_ltb_asym.
Qed.

Lemma comparator_trans st a b c :
  not_before (comparator st) a b -> not_before (comparator st) b c ->
  not_before (comparator st) a c.
Proof.
  unfold not_before. rewrite !comparator_keys. destruct (numeric _).
  - apply compare_keys_trans, Qc_ltb_negtrans.
  - apply compare_keys_trans, String_ltb_negtrans.
Qed.

Lemma comparator_tie st a b :
  get a (sortField st) = get b (sortField st) -> comparator st a b = 1.
Proof.
  rewrite !comparator_keys. destruct (numeric _) eqn:E.
  - rewrite !get_numeric by done. intros Heq.
    assert (num_key (sortField st) a = num_key (sortField st) b) as ->
      by (destruct (num_key _ a), (num_key _ b); simpl in Heq; congruence).
    apply compare_keys_tie, Qc_ltb_irrefl.
  - rewrite !get_string by done. intros Heq.
    assert (str_key (sortField st) a = str_key (sortField st) b) as ->
      by (destruct (str_key _ a), (str_key _ b); simpl in Heq; congruence).
    apply compare_keys_tie, String_ltb_irrefl.
Qed.

End Comparator.

Section TokenTable_properties.
Context `{Host}.
Import TokenTable Keys.

Lemma sortedTokens_in_order st tokens :
  StronglySorted (not_before (comparator st)) (sortedTokens st tokens).
Proof.
  apply Array_sort_sorted; [apply comparator_asym | apply comparator_trans].
Qed.

Lemma comparator_null_last st a b :
  get a (sortField st) = JNull -> get b (sortField st) <> JNull ->
  comparator st b a = -1.
Proof.
  intros Ha Hb. unfold comparator. rewrite Ha.
  destruct (get b (sortField st)); done.
Qed.

(** C2. In the sorted rows, whatever the column and the direction, a row
    whose value in the sort column is null stands after every row whose
    value there is not null. *)
Theorem sortedTokens_nulls_last st tokens i j a b :
  sortedTokens st tokens !! i = Some a ->
  sortedTokens st tokens !! j = Some b ->
  get a (sortField st) = JNull ->
  get b (sortField st) <> JNull ->
  (j < i)%nat.
Proof.
  intros Hi Hj Ha Hb.
  destruct (Nat.lt_total i j) as [Hlt | [-> | Hgt]]; [| congruence | done].
  pose proof (StronglySorted_lookup_lt _ _ _ _ _ _
                (sortedTokens_in_order st tokens) Hi Hj Hlt) as Hord.
  unfold not_before in Hord.
  rewrite (comparator_null_last st a b) in Hord by done. lia.
Qed.

(** C9. The comparator returns 1 or -1 and never 0; on two rows with the
    same value in the sort column, null or not, it returns 1 whichever
    row comes first, so that each is ordered after the other. *)
Theorem comparator_one_or_minus_one st a b :
  (comparator st a b = 1 \/ comparator st a b = -1) /\
  (get a (sortField st) = get b (sortField st) ->
   comparator st a b = 1 /\ comparator st b a = 1).
Proof.
  split.
  - rewrite comparator_keys. destruct (numeric _); apply compare_keys_values.
  - intros Heq. split; apply comparator_tie; congruence.
Qed.

(** C4. Selecting the active column flips the direction, selecting it
    twice restores the state, and selecting another column makes that
    column active, descending. *)
Theorem handleSort_toggle st g :
  handleSort st (sortField st) =
    {| sortField := sortField st; sortDirection := opposite (sortDirection st) |} /\
  handleSort (handleSort st (sortField st)) (sortField st) = st /\
  (g <> sortField st ->
   handleSort st g = {| sortField := g; sortDirection := desc |}).
Proof.
  destruct st as [f d].
  split_and!; [| |intros Hg]; unfold handleSort; simpl;
    repeat (case_decide; simpl in * ); subst; try done; by destruct d.
Qed.

(** C7. Producing the sorted rows leaves the array of the rows as it
    was: the sort works on a new array, which holds the sorted rows, and
    no other array of the store changes. *)
Theorem sortedTokens_ref_frame st (tokens : ref)
    (h : gmap ref (list TokenRecord)) l :
  h !! tokens = Some l ->
  exists sorted h',
    sortedTokens_ref st tokens h = Some (sorted, h') /\
    h' !! tokens = Some l /\
    h' !! sorted = Some (sortedTokens st l) /\
    sorted <> tokens /\
    forall r, r <> sorted -> h' !! r = h !! r.
Proof.
  intros Hl. unfold sortedTokens_ref, spread. rewrite Hl.
  set (copy := fresh (dom h)).
  assert (Hfresh : h !! copy = None).
  { apply not_elem_of_dom, is_fresh. }
  assert (Hne : copy <> tokens) by congruence.
  unfold sort_in_place. rewrite lookup_insert_eq.
  eexists _, _. split; [done|]. split_and!.
  - by rewrite !lookup_insert_ne.
  - by rewrite lookup_insert_eq.
  - done.
  - intros r Hr. by rewrite !lookup_insert_ne.
Qed.

End TokenTable_properties.

(** The same holds of what V8 computes on the rows of the table. *)
Lemma sortedTokens_short `{Host} st tokens :
  Array_sort_short (TokenTable.comparator st) tokens
  = TokenTable.sortedTokens st tokens.
Proof.
  apply Array_sort_short_correct; [apply comparator_asym | apply comparator_trans].
Qed.

(** The order of the rows with one value depends on the way the engine
    asks the comparator: asked the other way round, the comparator, which
    never answers 0, exchanges the two rows worth 500. *)
Lemma Array_sort_converse_ties :
  TokenTable.id <$> TokenTable.sortedTokens (H := Sample.host) Sample.by_cap_desc Sample.rows
  = [1; 3; 4; 2] /\
  TokenTable.id <$> Array_sort_converse
                      (TokenTable.comparator (H := Sample.host) Sample.by_cap_desc)
                      Sample.rows
  = [3; 1; 4; 2].
Proof. split; reflexivity. Qed.

(** Sorting the array of the rows itself, without the copy, would
    reorder it. *)
Lemma sort_in_place_mutates :
  exists h',
    sort_in_place (TokenTable.comparator (H := Sample.host) Sample.by_cap_desc)
      1%positive {[ 1%positive := Sample.rows ]} = Some (1%positive, h') /\
    TokenTable.id <$> default [] (h' !! 1%positive) = [1; 3; 4; 2] /\
    TokenTable.id <$> Sample.rows = [1; 2; 3; 4].
Proof.
  eexists. split; [reflexivity|].
  split; [|reflexivity]. rewrite lookup_insert_eq. reflexivity.
Qed.

Lemma sortedTokens_nulls_last_witness :
  TokenTable.sortedTokens (H := Sample.host) Sample.by_cap_desc Sample.rows !! 3%nat
  = Some (Sample.token 2 None None) /\
  TokenTable.sortedTokens (H := Sample.host) Sample.by_cap_desc Sample.rows !! 0%nat
  = Some (Sample.token 1 (Some "alpha") (Some 500)) /\
  (0 < 3)%nat.
Proof.
  split; [reflexivity|]. split; [reflexivity|].
  apply (sortedTokens_nulls_last (H := Sample.host) Sample.by_cap_desc Sample.rows
           3 0 (Sample.token 2 None None) (Sample.token 1 (Some "alpha") (Some 500)));
    [ reflexivity | reflexivity | reflexivity | discriminate ].
Defined.

Lemma comparator_one_or_minus_one_witness :
  TokenTable.comparator (H := Sample.host) Sample.by_cap_asc
    (Sample.token 1 (Some "alpha") (Some 500))
    (Sample.token 3 (Some "beta") (Some 500)) = 1 /\
  TokenTable.comparator (H := Sample.host) Sample.by_cap_asc
    (Sample.token 3 (Some "beta") (Some 500))
    (Sample.token 1 (Some "alpha") (Some 500)) = 1.
Proof.
  apply (comparator_one_or_minus_one (H := Sample.host) Sample.by_cap_asc
           (Sample.token 1 (Some "alpha") (Some 500))
           (Sample.token 3 (Some "beta") (Some 500))).
  reflexivity.
Defined.

Lemma handleSort_toggle_witness :
  TokenTable.f_price <> TokenTable.sortField TokenTable.initial /\
  TokenTable.handleSort TokenTable.initial TokenTable.f_price =
    {| TokenTable.sortField := TokenTable.f_price;
       TokenTable.sortDirection := TokenTable.desc |}.
Proof.
  split; [discriminate|].
  apply (handleSort_toggle TokenTable.initial TokenTable.f_price). discriminate.
Defined.

Lemma sortedTokens_ref_frame_witness :
  exists sorted h',
    TokenTable.sortedTokens_ref (H := Sample.host) Sample.by_cap_desc 1%positive
      {[ 1%positive := Sample.rows ]} = Some (sorted, h') /\
    h' !! 1%positive = Some Sample.rows /\
    h' !! sorted
    = Some (TokenTable.sortedTokens (H := Sample.host) Sample.by_cap_desc Sample.rows) /\
    sorted <> 1%positive /\
    forall r, r <> sorted ->
      h' !! r = ({[ 1%positive := Sample.rows ]} : gmap ref (list TokenTable.TokenRecord)) !! r.
Proof.
  apply (sortedTokens_ref_frame (H := Sample.host) Sample.by_cap_desc 1%positive
           {[ 1%positive := Sample.rows ]} Sample.rows).
  reflexivity.
Defined.

(** ** Decimal rendering and amounts of money *)

Section Rendering.
Import Money.

Lemma is_digit_digit_char d : is_digit (digit_char d) = true.
Proof.
  unfold is_digit, digit_char.
  assert (d mod 10 < 10)%N as Hlt by (by apply N.mod_lt).
  revert Hlt. generalize (d mod 10)%N. intros r Hr.
  rewrite N_ascii_embedding by lia.
  apply andb_true_intro; split; apply N.leb_le; lia.
Qed.

Lemma digits_fixed_digits k v : Forall (fun c => is_digit c = true) (digits_fixed k v).
Proof.
  revert v. induction k as [|k IH]; intros v; simpl; [constructor|].
  apply Forall_app; split; [apply IH|].
  constructor; [apply is_digit_digit_char | constructor].
Qed.

Lemma length_digits_fixed k v : length (digits_fixed k v) = k.
Proof.
  revert v. induction k as [|k IH]; intros v; simpl; [done|].
  rewrite length_app, IH. simpl. lia.
Qed.

Lemma string_of_uint_digits u :
  Forall (fun c => is_digit c = true)
    (list_ascii_of_string (NilEmpty.string_of_uint u)).
Proof. induction u; simpl; constructor; done. Qed.

(** The digits of a number: a digit, then digits. *)
Lemma digits_shape v :
  exists d ds, digits v = d :: ds /\ is_digit d = true /\
               Forall (fun c => is_digit c = true) ds.
Proof.
  unfold digits, NilZero.string_of_uint.
  destruct (N.to_uint v) eqn:E;
    try (pose proof (string_of_uint_digits (N.to_uint v)) as Hd;
         rewrite E in Hd; simpl in Hd |- *;
         apply Forall_cons in Hd as [Hd1 Hd2]; eauto).
  simpl. eexists _, []. split_and!; [done|done|constructor].
Qed.

Lemma group3_rev_cons k d rest :
  group3_rev k (d :: rest) =
    if (k =? 3)%nat then ","%char :: d :: group3_rev 1 rest
    else d :: group3_rev (S k) rest.
Proof. by destruct k as [|[|[|[|k]]]]. Qed.

Lemma group3_rev_shape k rds :
  Forall (fun c => is_digit c = true) rds -> rds <> [] ->
  exists l d, group3_rev k rds = l ++ [d] /\ is_digit d = true /\
              Forall (fun c => in_integer c = true) l.
Proof.
  intros Hall. revert k.
  induction Hall as [|d0 rest Hd0 Hrest IH]; intros k Hne; [done|]. clear Hne.
  assert (Hin0 : in_integer d0 = true) by (unfold in_integer; by rewrite Hd0).
  rewrite group3_rev_cons.
  destruct rest as [|d1 rest].
  - destruct (k =? 3)%nat; simpl.
    + exists [","%char], d0. by repeat constructor.
    + by exists [], d0.
  - destruct (k =? 3)%nat.
    + destruct (IH 1%nat) as (l & d & -> & Hd & Hl); [done|].
      exists (","%char :: d0 :: l), d. split_and!; [done|done|by repeat constructor].
    + destruct (IH (S k)) as (l & d & -> & Hd & Hl); [done|].
      exists (d0 :: l), d. split_and!; [done|done|by constructor].
Qed.

Lemma group3_shape ds :
  Forall (fun c => is_digit c = true) ds -> ds <> [] ->
  exists d l, group3 ds = d :: l /\ is_digit d = true /\
              Forall (fun c => in_integer c = true) l.
Proof.
  intros Hds Hne. unfold group3.
  destruct (group3_rev_shape 0 (rev ds)) as (l & d & -> & Hd & Hl).
  - by apply Forall_rev.
  - intros Hrev. apply Hne. by rewrite <- (rev_involutive ds), Hrev.
  - exists d, (rev l). rewrite rev_app_distr. simpl.
    split_and!; [done|done|by apply Forall_rev].
Qed.

Lemma after_integer_app l rest :
  Forall (fun c => in_integer c = true) l ->
  after_integer rest = rest ->
  after_integer (l ++ rest) = rest.
Proof. induction 1 as [|c l Hc _ IH]; intros Hrest; simpl; [done|]. rewrite Hc. auto. Qed.

Lemma trim_zeros_rev_digits extra rds :
  Forall (fun c => is_digit c = true) rds ->
  Forall (fun c => is_digit c = true) (trim_zeros_rev extra rds).
Proof.
  revert rds. induction extra as [|e IH]; intros rds Hall; simpl; [by destruct rds|].
  destruct Hall as [|c rest Hc Hrest]; [constructor|].
  destruct (Ascii.eqb c "0"); [by apply IH | by constructor].
Qed.

Lemma trim_zeros_rev_length extra rds :
  (length rds - extra <= length (trim_zeros_rev extra rds) <= length rds)%nat.
Proof.
  revert rds. induction extra as [|e IH]; intros rds; simpl.
  - destruct rds; simpl; lia.
  - destruct rds as [|c rest]; simpl; [lia|].
    destruct (Ascii.eqb c "0"); simpl; [|lia].
    specialize (IH rest). lia.
Qed.

Lemma trim_zeros_digits minFD ds :
  Forall (fun c => is_digit c = true) ds ->
  Forall (fun c => is_digit c = true) (trim_zeros minFD ds).
Proof.
  intros Hds. unfold trim_zeros.
  by apply Forall_rev, trim_zeros_rev_digits, Forall_rev.
Qed.

Lemma trim_zeros_length minFD ds :
  (Nat.min minFD (length ds) <= length (trim_zeros minFD ds) <= length ds)%nat.
Proof.
  unfold trim_zeros. rewrite length_rev.
  pose proof (trim_zeros_rev_length (length ds - minFD) (rev ds)) as Hl.
  rewrite length_rev in Hl. lia.
Qed.

Lemma forallb_digits ds :
  Forall (fun c => is_digit c = true) ds -> forallb is_digit ds = true.
Proof. induction 1; simpl; [done|]. by apply andb_true_intro. Qed.

(** An amount as [NumberFormat_format] prints it is read back with the
    number of its fraction digits. *)
Lemma fraction_digits_amount sign int fraction :
  sign = [] \/ sign = ["-"%char] ->
  Forall (fun c => is_digit c = true) int -> int <> [] ->
  Forall (fun c => is_digit c = true) fraction ->
  fraction_digits
    (string_of_list_ascii
       (sign ++ "$"%char :: group3 int
          ++ match fraction with [] => [] | _ => "."%char :: fraction end))
  = Some (length fraction).
Proof.
  intros Hsign Hint Hne Hfr.
  destruct (group3_shape int Hint Hne) as (d & l & -> & Hd & Hl).
  assert (Hrest : after_integer
            (l ++ match fraction with [] => [] | _ => "."%char :: fraction end)
          = match fraction with [] => [] | _ => "."%char :: fraction end).
  { apply after_integer_app; [done|]. by destruct fraction. }
  unfold fraction_digits. rewrite list_ascii_of_string_of_list_ascii.
  assert (Hbody :
    match "$"%char :: (d :: l)
            ++ match fraction with [] => [] | _ => "."%char :: fraction end with
    | c :: d :: rest =>
        if Ascii.eqb c "$" && is_digit d then
          match after_integer rest with
          | [] => Some O
          | p :: fraction =>
              if Ascii.eqb p "." && forallb is_digit fraction
                 && negb (Nat.eqb (length fraction) 0)
              then Some (length fraction) else None
          end
        else None
    | _ => None
    end = Some (length fraction)).
  { simpl. rewrite Hd, Hrest. simpl.
    destruct fraction as [|c fr]; [done|].
    rewrite (forallb_digits _ Hfr). done. }
  destruct Hsign as [-> | ->]; simpl app; cbv beta iota zeta.
  - change (Ascii.eqb "$" "-") with false. cbv iota. exact Hbody.
  - change (Ascii.eqb "-" "-") with true. cbv iota. exact Hbody.
Qed.

Lemma sign_of_cases q : sign_of q = [] \/ sign_of q = ["-"%char].
Proof. unfold sign_of. case_bool_decide; auto. Qed.

End Rendering.

(** ** The formatters *)

Section Formatting_properties.
Context `{Host}.
Import Money.

(** A number is printed with at least the minimum and at most the
    maximum number of fraction digits. *)
Lemma NumberFormat_format_digits nf q :
  (minimumFractionDigits nf <= maximumFractionDigits nf)%nat ->
  exists k,
    fraction_digits (NumberFormat_format nf (JNum q)) = Some k /\
    (minimumFractionDigits nf <= k <= maximumFractionDigits nf)%nat.
Proof.
  intros Hle. unfold NumberFormat_format. simpl ToNumber. cbv zeta.
  set (n := round_scaled (maximumFractionDigits nf) q).
  set (scale := (10 ^ N.of_nat (maximumFractionDigits nf))%N).
  set (fraction := trim_zeros (minimumFractionDigits nf)
                     (digits_fixed (maximumFractionDigits nf) (n mod scale))).
  destruct (digits_shape (n / scale)) as (d & ds & Hds & Hd & Hall).
  exists (length fraction). split.
  - apply (fraction_digits_amount (sign_of q) (digits (n / scale)) fraction).
    + apply sign_of_cases.
    + rewrite Hds. by constructor.
    + by rewrite Hds.
    + apply trim_zeros_digits, digits_fixed_digits.
  - pose proof (trim_zeros_length (minimumFractionDigits nf)
                  (digits_fixed (maximumFractionDigits nf) (n mod scale))) as Hl.
    rewrite length_digits_fixed in Hl. subst fraction. lia.
Qed.

(** C6, as the code has it.  The formatter of the rows maps null and
    undefined to "N/A" and a number to an amount in US dollars with two
    to six fraction digits; the formatter of the summary cards maps a
    number to an amount in US dollars without fraction digits and has no
    case for null, which it prints as the number 0. *)
Theorem formatCurrency_fraction_digits q :
  TokenTable.formatCurrency JNull = Normal "N/A" /\
  TokenTable.formatCurrency JUndefined = Normal "N/A" /\
  (exists s k, TokenTable.formatCurrency (JNum q) = Normal s /\
               fraction_digits s = Some k /\ (2 <= k <= 6)%nat) /\
  (exists s, Dashboard.formatCurrency (JNum q) = Normal s /\
             fraction_digits s = Some 0%nat) /\
  Dashboard.formatCurrency JNull = Normal "$0".
Proof.
  split_and!; try done.
  - destruct (NumberFormat_format_digits
                {| minimumFractionDigits := 2; maximumFractionDigits := 6 |} q)
      as (k & Hk & Hle); [simpl; lia|].
    eexists _, k. split_and!; [done | exact Hk | simpl in Hle; lia..].
  - destruct (NumberFormat_format_digits
                {| minimumFractionDigits := 0; maximumFractionDigits := 0 |} q)
      as (k & Hk & Hle); [simpl; lia|].
    eexists. split; [done|]. simpl in Hle. by replace k with 0%nat in Hk by lia.
Qed.

Lemma Number_toFixed_2 q : exists s, Number_toFixed q 2 = Normal s.
Proof.
  unfold Number_toFixed. simpl.
  destruct (10 ^ 21 * Z.pos (Qden q) <=? Z.abs (Qnum q)); eauto.
Qed.

Lemma formatProgress_schema (progress : option Qc) :
  exists g, TokenTable.formatProgress (TokenTable.of_num progress) = Normal g.
Proof.
  destruct progress as [q|]; simpl; [|by eexists].
  unfold TokenTable.formatProgress. simpl.
  destruct (Number_toFixed_2 q) as [s ->]. by eexists.
Qed.

Lemma TokenTable_formatCurrency_total v :
  exists s, TokenTable.formatCurrency v = Normal s.
Proof. destruct v; by eexists. Qed.

Lemma TokenTable_formatDate_total v :
  exists s, TokenTable.formatDate v = Normal s.
Proof. unfold TokenTable.formatDate. destruct (negb _); by eexists. Qed.

(** C8. No formatter raises, whatever is null or absent.  The currency
    and the date formatter return a string on every value; the progress
    is the number 0, shown as "0", for null and for undefined, and a value
    for every number; the name and the symbol fall back to a string; so
    every cell of every row of the table, whichever of its fields are
    null, and every figure of the summary is a string. *)
Theorem formatters_total (token : TokenTable.TokenRecord) (stats : Dashboard.Stats)
    (v : jsval) (q : Qc) :
  (exists s, TokenTable.formatCurrency v = Normal s) /\
  (exists s, TokenTable.formatDate v = Normal s) /\
  TokenTable.formatProgress JNull = Normal (JNum 0%Qc) /\
  TokenTable.formatProgress JUndefined = Normal (JNum 0%Qc) /\
  jsx_text (JNum 0%Qc) = "0" /\
  (exists g, TokenTable.formatProgress (JNum q) = Normal g) /\
  (exists s, Dashboard.formatCurrency v = Normal s) /\
  (exists row, TokenTable.renderRow token = Normal row) /\
  (exists figures, Dashboard.render stats = Normal figures).
Proof.
  split_and!; try done; try (by eexists).
  - apply TokenTable_formatCurrency_total.
  - apply TokenTable_formatDate_total.
  - apply (formatProgress_schema (Some q)).
  - unfold TokenTable.renderRow, TokenTable.progressCell.
    destruct (TokenTable_formatCurrency_total (TokenTable.of_num (TokenTable.price token)))
      as [p ->].
    destruct (TokenTable_formatCurrency_total (TokenTable.of_num (TokenTable.market_cap token)))
      as [m ->].
    destruct (TokenTable_formatCurrency_total (TokenTable.of_num (TokenTable.volume_24h token)))
      as [c ->].
    destruct (formatProgress_schema (TokenTable.bonding_curve_progress token)) as [g ->].
    destruct (TokenTable_formatDate_total (TokenTable.of_str (TokenTable.creation_time token)))
      as [d ->].
    by eexists.
Qed.

(** Where every nullable field is null, the cells are the fallbacks. *)
Lemma renderRow_nulls :
  TokenTable.renderRow (Sample.token 2 None None)
  = Normal {| TokenTable.r_name := "Unknown";
              TokenTable.r_symbol := "N/A";
              TokenTable.r_price := "N/A";
              TokenTable.r_market_cap := "N/A";
              TokenTable.r_volume_24h := "N/A";
              TokenTable.r_progress := "0%";
              TokenTable.r_created := "N/A" |}.
Proof. reflexivity. Qed.

(** The amount 1234.5 in a row and on a summary card. *)
Lemma formatCurrency_1234_5 :
  TokenTable.formatCurrency (H := Sample.host) (JNum (Q2Qc (12345 # 10)))
  = Normal "$1,234.50" /\
  Dashboard.formatCurrency (H := Sample.host) (JNum (Q2Qc (12345 # 10)))
  = Normal "$1,235".
Proof. split; reflexivity. Qed.

(** Outside the schema the progress cell does raise: a string has no
    [toFixed]. *)
Lemma formatProgress_string s :
  exists e, TokenTable.formatProgress (JStr s) = Throw e.
Proof. by eexists. Qed.

End Formatting_properties.

Lemma Dashboard_formatCurrency_null :
  Dashboard.formatCurrency (H := Sample.host) JNull <> Normal "N/A".
Proof. discriminate. Qed.

(** ** The page *)

Section Home_properties.
Context `{Arith}.
Import Home Summary.

Lemma fold_left_add_surviving caps acc :
  fold_left add
    (map market_cap
       (List.filter (fun token => ToBoolean (TokenTable.of_num (market_cap token)))
          (Build_CapRow <$> caps))) acc
  = fold_left Number_add (surviving caps) acc.
Proof.
  revert acc. induction caps as [|cap caps IH]; intros acc; simpl; [done|].
  destruct cap as [q|]; simpl; [|apply IH].
  destruct (decide (q = 0%Qc)) as [->|Hq].
  - rewrite bool_decide_eq_true_2 by done. simpl. apply IH.
  - rewrite bool_decide_eq_false_2 by done. simpl. apply IH.
Qed.

Lemma length_valid_surviving caps :
  length
    (map market_cap
       (List.filter (fun token => ToBoolean (TokenTable.of_num (market_cap token)))
          (Build_CapRow <$> caps)))
  = length (surviving caps).
Proof.
  induction caps as [|cap caps IH]; simpl; [done|].
  destruct cap as [q|]; simpl; [|apply IH].
  destruct (decide (q = 0%Qc)) as [->|Hq].
  - rewrite bool_decide_eq_true_2 by done. simpl. apply IH.
  - rewrite bool_decide_eq_false_2 by done. simpl. f_equal. apply IH.
Qed.

Lemma averageMarketCap_average caps valid :
  validMarketCaps (Some (Build_CapRow <$> caps)) = Normal valid ->
  averageMarketCap valid = average caps.
Proof.
  intros [= <-]. unfold averageMarketCap, average, sum.
  rewrite fold_left_add_surviving, length_valid_surviving.
  by destruct (surviving caps) as [|q l].
Qed.

Lemma or_0_default n : or_0 n = default 0 n.
Proof. destruct n as [n|]; simpl; [|done]. by case_decide. Qed.

Lemma fetchStats_fulfilled n1 n2 n3 caps st :
  fetchStats (Normal (counted n1)) (Normal (counted n2)) (Normal (counted n3))
    (Normal (listed caps)) st
  = (Normal (),
     {| tokens := tokens st; loading := loading st;
        stats := {| Dashboard.totalTokens := default 0 n1;
                    Dashboard.kingsOfHill := default 0 n2;
                    Dashboard.raydiumMigrated := default 0 n3;
                    Dashboard.averageMarketCap := average caps |};
        console := console st |}).
Proof.
  unfold fetchStats, try_catch, await, lift, mbind, M_bind, setStats; simpl.
  rewrite !or_0_default. by rewrite (averageMarketCap_average caps _ eq_refl).
Qed.

(** C3. Whatever the rounding of the host's [+] and [/], the average
    shown is the sum of the market capitalisations that are neither null
    nor zero, added to 0 one after the other, divided by their number, and
    it is 0 when there is none; each count that the data store does not
    return (null) is 0.  In particular, on a host that adds 100, 200 and
    300 and halves or thirds the sums without rounding, as one with
    doubles does, the average of 100, 200, null, 300 is 200, and the
    counts 120, 3, 40 with the values 1000000, 500000, null give the
    statistics 120, 3, 40, 750000. *)
Theorem fetchStats_average n1 n2 n3 caps st :
  stats (snd (fetchStats (Normal (counted n1)) (Normal (counted n2))
                (Normal (counted n3)) (Normal (listed caps)) st))
  = {| Dashboard.totalTokens := default 0 n1;
       Dashboard.kingsOfHill := default 0 n2;
       Dashboard.raydiumMigrated := default 0 n3;
       Dashboard.averageMarketCap := average caps |} /\
  average [] = 0%Qc /\
  (Number_add 0%Qc (Qc_of_Z 100) = Qc_of_Z 100 ->
   Number_add (Qc_of_Z 100) (Qc_of_Z 200) = Qc_of_Z 300 ->
   Number_add (Qc_of_Z 300) (Qc_of_Z 300) = Qc_of_Z 600 ->
   Number_divide (Qc_of_Z 600) (Qc_of_Z 3) = Qc_of_Z 200 ->
   average [Some (Qc_of_Z 100); Some (Qc_of_Z 200); None; Some (Qc_of_Z 300)]
   = Qc_of_Z 200) /\
  (Number_add 0%Qc (Qc_of_Z 1000000) = Qc_of_Z 1000000 ->
   Number_add (Qc_of_Z 1000000) (Qc_of_Z 500000) = Qc_of_Z 1500000 ->
   Number_divide (Qc_of_Z 1500000) (Qc_of_Z 2) = Qc_of_Z 750000 ->
   stats (snd (fetchStats (Normal (counted (Some 120))) (Normal (counted (Some 3)))
                 (Normal (counted (Some 40)))
                 (Normal (listed [Some (Qc_of_Z 1000000); Some (Qc_of_Z 500000); None]))
                 st))
   = {| Dashboard.totalTokens := 120;
        Dashboard.kingsOfHill := 3;
        Dashboard.raydiumMigrated := 40;
        Dashboard.averageMarketCap := Qc_of_Z 750000 |}).
Proof.
  rewrite !fetchStats_fulfilled. cbn [snd stats].
  assert (Hthree :
    surviving [Some (Qc_of_Z 100); Some (Qc_of_Z 200); None; Some (Qc_of_Z 300)]
    = [Qc_of_Z 100; Qc_of_Z 200; Qc_of_Z 300]) by (vm_compute; reflexivity).
  assert (Htwo :
    surviving [Some (Qc_of_Z 1000000); Some (Qc_of_Z 500000); None]
    = [Qc_of_Z 1000000; Qc_of_Z 500000]) by (vm_compute; reflexivity).
  split_and!; [done | done | |].
  - intros H1 H2 H3 H4. unfold average. rewrite Hthree. unfold sum.
    cbn [fold_left length]. change (Z.of_nat 3) with 3.
    by rewrite H1, H2, H3, H4.
  - intros H1 H2 H3. f_equal. unfold average. rewrite Htwo. unfold sum.
    cbn [fold_left length]. change (Z.of_nat 2) with 2.
    by rewrite H1, H2, H3.
Qed.

(** X14. Whatever the four queries settle to, [fetchStats] completes, and
    leaves the rows and the loading flag alone. *)
Lemma fetchStats_frame total kings raydium caps st :
  fst (fetchStats total kings raydium caps st) = Normal () /\
  tokens (snd (fetchStats total kings raydium caps st)) = tokens st /\
  loading (snd (fetchStats total kings raydium caps st)) = loading st.
Proof.
  unfold fetchStats, try_catch, await, lift, mbind, M_bind, setStats,
    console_error.
  destruct total as [r1|]; simpl; [|done].
  destruct kings as [r2|]; simpl; [|done].
  destruct raydium as [r3|]; simpl; [|done].
  destruct caps as [r4|]; simpl; [|done].
  destruct (validMarketCaps (data r4)); done.
Qed.

(** The statistics stay as they were when a promise is rejected, or when
    the market capitalisations come back null. *)
Lemma fetchStats_stale total kings raydium caps st :
  (exists e, total = Throw e) \/ (exists e, kings = Throw e) \/
  (exists e, raydium = Throw e) \/ (exists e, caps = Throw e) \/
  (exists r, caps = Normal r /\ data r = None) ->
  stats (snd (fetchStats total kings raydium caps st)) = stats st.
Proof.
  unfold fetchStats, try_catch, await, lift, mbind, M_bind, setStats,
    console_error.
  intros Hfail.
  destruct total as [r1|]; simpl; [|done].
  destruct kings as [r2|]; simpl; [|done].
  destruct raydium as [r3|]; simpl; [|done].
  destruct caps as [r4|]; simpl; [|done].
  destruct Hfail as [[? [=]]|[[? [=]]|[[? [=]]|[[? [=]]|(r & [= <-] & ->)]]]].
  done.
Qed.

(** C10. [fetchTokens] completes with the loading flag false, whether
    the query succeeded or failed, and a failed query leaves the rows as
    they were. *)
Theorem fetchTokens_loading query st :
  fst (fetchTokens query st) = Normal () /\
  loading (snd (fetchTokens query st)) = false /\
  (failed query -> tokens (snd (fetchTokens query st)) = tokens st).
Proof.
  unfold fetchTokens, try_finally, try_catch, await, lift, mbind, M_bind,
    setLoading, setTokens, console_error, throw, failed.
  destruct query as [r|e]; simpl; [|done].
  destruct (error r) as [e|]; simpl; [done|].
  split_and!; try done; by intros [? [=]].
Qed.

End Home_properties.

Section Home_refused.
Import Home Summary.

(** A count query that resolves with an error sets its count to 0,
    whatever the statistics were. *)
Lemma fetchStats_refused_total e n2 n3 caps st :
  Dashboard.totalTokens
    (stats (snd (fetchStats (Normal (refused e)) (Normal (counted n2))
                   (Normal (counted n3)) (Normal (listed caps)) st)))
  = 0.
Proof. reflexivity. Qed.

(** C5, at a failing count query.  The page has shown 120 tokens; the
    query of the total then resolves with an error and no count, the
    other three succeed: the statistics are replaced, with a total of 0,
    where the specification keeps the last ones. *)
Theorem fetchStats_refused_count_overwrites :
  stats (snd (fetchStats (Normal (refused Sample.outage))
                (Normal (counted (Some 3))) (Normal (counted (Some 40)))
                (Normal (listed [Some (Qc_of_Z 1000000); Some (Qc_of_Z 500000); None]))
                Sample.shown))
  = {| Dashboard.totalTokens := 0;
       Dashboard.kingsOfHill := 3;
       Dashboard.raydiumMigrated := 40;
       Dashboard.averageMarketCap := Qc_of_Z 750000 |} /\
  failed (Normal (refused (R := TokenTable.TokenRecord) Sample.outage)) /\
  stats (snd (fetchStats (Normal (refused Sample.outage))
                (Normal (counted (Some 3))) (Normal (counted (Some 40)))
                (Normal (listed [Some (Qc_of_Z 1000000); Some (Qc_of_Z 500000); None]))
                Sample.shown))
  <> stats Sample.shown.
Proof.
  assert (Heq :
    stats (snd (fetchStats (Normal (refused Sample.outage))
                  (Normal (counted (Some 3))) (Normal (counted (Some 40)))
                  (Normal (listed [Some (Qc_of_Z 1000000); Some (Qc_of_Z 500000); None]))
                  Sample.shown))
    = {| Dashboard.totalTokens := 0;
         Dashboard.kingsOfHill := 3;
         Dashboard.raydiumMigrated := 40;
         Dashboard.averageMarketCap := Qc_of_Z 750000 |}).
  { unfold fetchStats, try_catch, await, lift, mbind, M_bind, setStats; simpl.
    f_equal. apply Qc_is_canon. reflexivity. }
  split_and!; [exact Heq | by eexists | rewrite Heq; discriminate].
Qed.

End Home_refused.

Lemma fetchStats_average_witness :
  Summary.average
    [Some (Qc_of_Z 100); Some (Qc_of_Z 200); None; Some (Qc_of_Z 300)]
  = Qc_of_Z 200 /\
  Home.stats
    (snd (Home.fetchStats (Normal (Summary.counted (Some 120)))
            (Normal (Summary.counted (Some 3))) (Normal (Summary.counted (Some 40)))
            (Normal (Summary.listed
                       [Some (Qc_of_Z 1000000); Some (Qc_of_Z 500000); None]))
            Sample.shown))
  = {| Dashboard.totalTokens := 120;
       Dashboard.kingsOfHill := 3;
       Dashboard.raydiumMigrated := 40;
       Dashboard.averageMarketCap := Qc_of_Z 750000 |}.
Proof.
  split.
  - apply (proj1 (proj2 (proj2 (fetchStats_average (H := exact_arithmetic)
                                  None None None [] Sample.shown))));
      apply Qc_is_canon; reflexivity.
  - apply (proj2 (proj2 (proj2 (fetchStats_average (H := exact_arithmetic)
                                  None None None [] Sample.shown))));
      apply Qc_is_canon; reflexivity.
Defined.

Lemma fetchTokens_loading_witness :
  Summary.failed (Normal (Summary.refused (R := TokenTable.TokenRecord) Sample.outage)) /\
  Home.tokens (snd (Home.fetchTokens (Normal (Summary.refused Sample.outage)) Sample.shown))
  = Home.tokens Sample.shown.
Proof.
  split; [by eexists|].
  apply (fetchTokens_loading (Normal (Summary.refused Sample.outage)) Sample.shown).
  by eexists.
Defined.


(** * Further properties *)

(** ** The comparator and the sorted rows *)

Section KeyOrder_total.
Context {X : Type} (lt : X -> X -> bool).
Hypothesis lt_asym : forall a b, lt a b = true -> lt b a = false.
Hypothesis lt_total : forall a b, lt a b = false -> lt b a = false -> a = b.

Import TokenTable Keys.

Lemma compare_keys_swap d x y :
  x <> y -> compare_keys lt d x y = - compare_keys lt d y x.
Proof.
  destruct x as [a|], y as [b|], d; simpl; try done;
    intros Hne; destruct (lt a b) eqn:E1, (lt b a) eqn:E2; try done;
    first [ apply lt_asym in E1; congruence
          | exfalso; apply Hne; f_equal; by (apply lt_total) ].
Qed.

Lemma compare_keys_desc x y :
  compare_keys lt desc (Some x) (Some y) = compare_keys lt asc (Some y) (Some x).
Proof. done. Qed.

End KeyOrder_total.

Lemma Qc_ltb_total a b :
  Keys.Qc_ltb a b = false -> Keys.Qc_ltb b a = false -> a = b.
Proof.
  unfold Keys.Qc_ltb. rewrite !bool_decide_eq_false.
  intros H1%Qcnot_lt_le H2%Qcnot_lt_le. by apply Qcle_antisym.
Qed.

Lemma String_ltb_total s t :
  String.ltb s t = false -> String.ltb t s = false -> s = t.
Proof.
  unfold String.ltb. rewrite (String.compare_antisym t s).
  destruct (String.compare s t) eqn:E; simpl; try done.
  intros _ _. by apply String_as_OT.cmp_eq.
Qed.

Lemma String_leb_ltb s t : String.leb s t = negb (String.ltb t s).
Proof.
  unfold String.leb, String.ltb. rewrite (String.compare_antisym t s).
  by destruct (String.compare s t).
Qed.

Section Sorted_rows.
Context `{Host}.
Import TokenTable Keys.

(** Two rows that differ in the sort column are not each in front of the
    other. *)
Lemma comparator_one_way st a b :
  get a (sortField st) <> get b (sortField st) ->
  0 <= comparator st a b -> 0 <= comparator st b a -> False.
Proof.
  intros Hne. rewrite !comparator_keys. destruct (numeric _) eqn:E.
  - rewrite !get_numeric in Hne by done.
    rewrite (compare_keys_swap Qc_ltb Qc_ltb_asym Qc_ltb_total _
               (num_key (sortField st) a) (num_key (sortField st) b))
      by congruence.
    destruct (compare_keys_values Qc_ltb (sortDirection st)
                (num_key (sortField st) b) (num_key (sortField st) a)); lia.
  - rewrite !get_string in Hne by done.
    rewrite (compare_keys_swap String.ltb String_ltb_asym String_ltb_total _
               (str_key (sortField st) a) (str_key (sortField st) b))
      by congruence.
    destruct (compare_keys_values String.ltb (sortDirection st)
                (str_key (sortField st) b) (str_key (sortField st) a)); lia.
Qed.

(** X3. Where the two rows differ in the sort column, null or not, the
    comparator is antisymmetric: exchanging its arguments negates its
    result. *)
Theorem comparator_swap st a b :
  get a (sortField st) <> get b (sortField st) ->
  comparator st a b = - comparator st b a.
Proof.
  intros Hne. rewrite !comparator_keys. destruct (numeric _) eqn:E.
  - rewrite !get_numeric in Hne by done.
    apply compare_keys_swap; [apply Qc_ltb_asym | apply Qc_ltb_total | congruence].
  - rewrite !get_string in Hne by done.
    apply compare_keys_swap; [apply String_ltb_asym | apply String_ltb_total | congruence].
Qed.

(** X1. The rows come out in the order of the sort column: of two rows the
    later one has, under an ascending sort, a number that is not smaller
    or, where the two values are text of ASCII characters, a string that
    does not come first, and the converse under a descending sort. *)
Theorem sortedTokens_order st tokens i j a b :
  sortedTokens st tokens !! i = Some a ->
  sortedTokens st tokens !! j = Some b ->
  (i < j)%nat ->
  (forall x y, get a (sortField st) = JNum x -> get b (sortField st) = JNum y ->
     if decide (sortDirection st = asc) then (x <= y)%Qc else (y <= x)%Qc) /\
  (forall s t, get a (sortField st) = JStr s -> get b (sortField st) = JStr t ->
     ascii_text s = true -> ascii_text t = true ->
     if decide (sortDirection st = asc) then String.leb s t = true
     else String.leb t s = true).
Proof.
  intros Hi Hj Hlt.
  pose proof (StronglySorted_lookup_lt _ _ _ _ _ _
                (sortedTokens_in_order st tokens) Hi Hj Hlt) as Hord.
  unfold not_before, comparator in Hord.
  split.
  - intros x y Ha Hb. rewrite Ha, Hb in Hord. simpl in Hord.
    unfold IsGreaterThan in Hord. simpl in Hord.
    destruct (decide (sortDirection st = asc)); case_bool_decide; try lia;
      by apply Qcnot_lt_le.
  - intros s t Ha Hb _ _. rewrite Ha, Hb in Hord. simpl in Hord.
    unfold IsGreaterThan in Hord. simpl in Hord.
    rewrite !String_leb_ltb.
    destruct (decide (sortDirection st = asc)).
    + destruct (String.ltb t s); [lia | done].
    + destruct (String.ltb s t); [lia | done].
Qed.

Lemma flip_direction f a b :
  get a f <> JNull -> get b f <> JNull ->
  comparator {| sortField := f; sortDirection := desc |} a b
  = comparator {| sortField := f; sortDirection := asc |} b a.
Proof.
  intros Ha Hb. unfold comparator, IsGreaterThan. simpl.
  destruct (get a f), (get b f); done.
Qed.

Lemma rev_is_reverse {A} (l : list A) : rev l = reverse l.
Proof. unfold reverse. apply rev_alt. Qed.


Lemma StronglySorted_rev {A} (R : A -> A -> Prop) (l : list A) :
  StronglySorted R l -> StronglySorted (fun x y => R y x) (rev l).
Proof.
  induction 1 as [|x l Hs IH Hall]; simpl; [constructor|].
  apply StronglySorted_app. split_and!; [|done|by repeat constructor].
  intros y z Hy ->%list_elem_of_singleton.
  rewrite Forall_forall in Hall. apply Hall.
  by rewrite rev_is_reverse, elem_of_reverse in Hy.
Qed.

Lemma StronglySorted_weaken {A} (R R' : A -> A -> Prop) (l : list A) :
  (forall x y, x ∈ l -> y ∈ l -> R x y -> R' x y) ->
  StronglySorted R l -> StronglySorted R' l.
Proof.
  intros Himp. induction 1 as [|x l Hs IH Hall]; [constructor|].
  constructor.
  - apply IH. intros y z Hy Hz. apply Himp; by right.
  - rewrite Forall_forall in Hall |- *. intros y Hy.
    apply Himp; [left | by right | by apply Hall].
Qed.

(** X4. Where every row has a value in the sort column and no two rows have
    the same, the descending sort is the ascending sort read backwards. *)
Theorem sortedTokens_desc_rev f tokens :
  Forall (fun t => get t f <> JNull) tokens ->
  NoDup ((fun t => get t f) <$> tokens) ->
  sortedTokens {| sortField := f; sortDirection := desc |} tokens
  = rev (sortedTokens {| sortField := f; sortDirection := asc |} tokens).
Proof.
  intros Hnn Hnd.
  set (d := {| sortField := f; sortDirection := desc |}).
  set (u := {| sortField := f; sortDirection := asc |}).
  assert (Hpd : sortedTokens d tokens ≡ₚ tokens) by apply Array_sort_perm.
  assert (Hpu : sortedTokens u tokens ≡ₚ tokens) by apply Array_sort_perm.
  rewrite Forall_forall in Hnn.
  apply (StronglySorted_unique_strong (not_before (comparator d))).
  - intros x y Hx Hy Hxy Hyx. unfold not_before in Hxy, Hyx.
    destruct (decide (get x f = get y f)) as [Heq|Hne].
    + rewrite Hpd in Hx.
      rewrite rev_is_reverse, elem_of_reverse, Hpu in Hy.
      apply list_elem_of_lookup in Hx as [i Hi], Hy as [j Hj].
      assert (i = j) as ->; [|congruence].
      eapply NoDup_lookup; [exact Hnd| |];
        rewrite list_lookup_fmap; [by rewrite Hi | by rewrite Hj, Heq].
    + exfalso. by apply (comparator_one_way d x y Hne).
  - apply sortedTokens_in_order.
  - eapply StronglySorted_weaken;
      [|apply StronglySorted_rev, (sortedTokens_in_order u tokens)].
    intros x y Hx Hy. unfold not_before. simpl.
    rewrite rev_is_reverse, elem_of_reverse, Hpu in Hx, Hy.
    subst d u. rewrite (flip_direction f y x) by auto. done.
  - by rewrite Hpd, rev_is_reverse, reverse_Permutation, Hpu.
Qed.

End Sorted_rows.

Lemma comparator_swap_witness :
  TokenTable.comparator (H := Sample.host) Sample.by_cap_desc
    (Sample.token 2 None None) (Sample.token 4 (Some "gamma") (Some 20))
  = - TokenTable.comparator (H := Sample.host) Sample.by_cap_desc
        (Sample.token 4 (Some "gamma") (Some 20)) (Sample.token 2 None None).
Proof.
  apply (comparator_swap (H := Sample.host) Sample.by_cap_desc
           (Sample.token 2 None None) (Sample.token 4 (Some "gamma") (Some 20))).
  discriminate.
Defined.

Lemma sortedTokens_order_witness :
  TokenTable.sortedTokens (H := Sample.host) Sample.by_cap_desc Sample.rows !! 0%nat
  = Some (Sample.token 1 (Some "alpha") (Some 500)) /\
  TokenTable.sortedTokens (H := Sample.host) Sample.by_cap_desc Sample.rows !! 2%nat
  = Some (Sample.token 4 (Some "gamma") (Some 20)) /\
  (Qc_of_Z 20 <= Qc_of_Z 500)%Qc /\
  TokenTable.sortedTokens (H := Sample.host) Sample.by_name_asc Sample.rows !! 1%nat
  = Some (Sample.token 3 (Some "beta") (Some 500)) /\
  TokenTable.sortedTokens (H := Sample.host) Sample.by_name_asc Sample.rows !! 2%nat
  = Some (Sample.token 4 (Some "gamma") (Some 20)) /\
  Keys.ascii_text "beta" = true /\ Keys.ascii_text "gamma" = true /\
  String.leb "beta" "gamma" = true.
Proof.
  split; [reflexivity|]. split; [reflexivity|].
  split.
  - apply (proj1 (sortedTokens_order (H := Sample.host) Sample.by_cap_desc Sample.rows
                    0 2 (Sample.token 1 (Some "alpha") (Some 500))
                    (Sample.token 4 (Some "gamma") (Some 20))
                    eq_refl eq_refl (Nat.lt_0_succ 1))
             (Qc_of_Z 500) (Qc_of_Z 20) eq_refl eq_refl).
  - split; [reflexivity|]. split; [reflexivity|].
    split; [reflexivity|]. split; [reflexivity|].
    apply (proj2 (sortedTokens_order (H := Sample.host) Sample.by_name_asc Sample.rows
                    1 2 (Sample.token 3 (Some "beta") (Some 500))
                    (Sample.token 4 (Some "gamma") (Some 20))
                    eq_refl eq_refl (Nat.lt_succ_diag_r 1))
             "beta" "gamma" eq_refl eq_refl eq_refl eq_refl).
Defined.

Lemma sortedTokens_desc_rev_witness :
  TokenTable.sortedTokens (H := Sample.host)
    {| TokenTable.sortField := TokenTable.f_market_cap;
       TokenTable.sortDirection := TokenTable.desc |} Sample_rows.distinct
  = rev (TokenTable.sortedTokens (H := Sample.host)
           {| TokenTable.sortField := TokenTable.f_market_cap;
              TokenTable.sortDirection := TokenTable.asc |} Sample_rows.distinct).
Proof.
  apply (sortedTokens_desc_rev (H := Sample.host) TokenTable.f_market_cap
           Sample_rows.distinct).
  - repeat constructor; discriminate.
  - apply (bool_decide_unpack _). vm_compute. exact I.
Defined.

(** ** The engine of the sort *)

Section Converse.
Context {A : Type} (cmp : A -> A -> Z).




(** A sequence of which each element is strictly before the later ones
    is returned as it is. *)
Lemma fold_insert_from_right_strict l placed :
  StronglySorted (fun a b => cmp a b < 0) (placed ++ l) ->
  fold_left (fun placed_rev x => insert_from_right cmp x placed_rev) l (rev placed)
  = rev (placed ++ l).
Proof.
  revert placed. induction l as [|x l IH]; intros placed Hs; simpl.
  - by rewrite app_nil_r.
  - assert (Hx : insert_from_right cmp x (rev placed) = rev (placed ++ [x])).
    { rewrite rev_unit. destruct (rev placed) as [|y rest] eqn:E; [done|].
      simpl. assert (Hy : cmp y x < 0).
      { apply StronglySorted_app in Hs as (Hall & _ & _).
        apply Hall; [|left].
        rewrite <- elem_of_reverse, <- rev_is_reverse, E. left. }
      destruct (0 <? cmp y x) eqn:E'; [lia | done]. }
    rewrite Hx, IH; rewrite <- app_assoc; done.
Qed.

Lemma Array_sort_converse_strict_id l :
  StronglySorted (fun a b => cmp a b < 0) l -> Array_sort_converse cmp l = l.
Proof.
  intros Hs. unfold Array_sort_converse.
  change (@nil A) with (rev (@nil A)) at 1.
  rewrite (fold_insert_from_right_strict l []) by done. apply rev_involutive.
Qed.

Hypothesis cmp_asym : forall x y, cmp x y < 0 -> 0 <= cmp y x.
Hypothesis ord_trans :
  forall x y z, not_before cmp x y -> not_before cmp y z -> not_before cmp x z.
Hypothesis cmp_nonzero : forall x y, cmp x y <> 0.



End Converse.

Section Engines.
Context `{Host}.
Import TokenTable Keys.




(** X2. Rows of which each is strictly before the later ones in the order
    of the comparator, as rows that the data store has ordered on a
    column without ties, are shown as they are, on either kind of
    engine. *)
Theorem sortedTokens_ordered_input engine st tokens :
  StronglySorted (fun a b => comparator st a b < 0) tokens ->
  sortedTokens_on engine st tokens = tokens.
Proof.
  intros Hs. destruct engine.
  - apply Array_sort_sorted_id.
    eapply StronglySorted_weaken; [|exact Hs].
    intros x y _ _. apply comparator_asym.
  - by apply Array_sort_converse_strict_id.
Qed.

End Engines.



Lemma sortedTokens_ordered_input_witness :
  TokenTable.sortedTokens_on (H := Sample.host) asks_placed_after_new
    Sample.by_cap_desc Sample_rows.descending
  = Sample_rows.descending.
Proof.
  apply (sortedTokens_ordered_input (H := Sample.host) asks_placed_after_new
           Sample.by_cap_desc Sample_rows.descending).
  repeat constructor; by vm_compute.
Defined.

(** ** The header row and the clicks *)

Section Header.
Import TokenTable Keys TableView.

Lemma handleSort_field st g : sortField (handleSort st g) = g.
Proof. unfold handleSort. by case_decide. Qed.

(** X5. After any clicks the active column is the one clicked last, and it
    is sorted descending if the click before was on another column. *)
Theorem clicked_last st clicks g :
  sortField (clicked st (clicks ++ [g])) = g /\
  (sortField (clicked st clicks) <> g ->
   sortDirection (clicked st (clicks ++ [g])) = desc).
Proof.
  unfold clicked. rewrite fold_left_app. simpl. split.
  - apply handleSort_field.
  - intros Hne. unfold handleSort. by rewrite decide_False.
Qed.

Lemma handleSort_active st :
  handleSort st (sortField st)
  = {| sortField := sortField st; sortDirection := opposite (sortDirection st) |}.
Proof.
  unfold handleSort. rewrite decide_True by done.
  by destruct st as [f []].
Qed.

(** X6. [n] clicks on the active column leave the state as it was if [n] is
    even, and with the other direction if [n] is odd. *)
Theorem clicked_active st n :
  clicked st (replicate n (sortField st))
  = if Nat.even n then st
    else {| sortField := sortField st;
            sortDirection := opposite (sortDirection st) |}.
Proof.
  unfold clicked. revert st. induction n as [n IH] using lt_wf_ind. intros st.
  destruct n as [|[|n]]; [done | apply handleSort_active |].
  change (fold_left handleSort (replicate (S (S n)) (sortField st)) st)
    with (fold_left handleSort (replicate n (sortField st))
            (handleSort (handleSort st (sortField st)) (sortField st))).
  assert (Hst : handleSort (handleSort st (sortField st)) (sortField st) = st).
  { destruct st as [f []]; unfold handleSort; simpl;
      repeat (case_decide; simpl in * ); done. }
  rewrite Hst. change (Nat.even (S (S n))) with (Nat.even n). apply IH. lia.
Qed.

End Header.

Lemma clicked_last_witness :
  TokenTable.sortField (TableView.clicked TokenTable.initial [TokenTable.f_price])
  <> TokenTable.f_token_name /\
  TokenTable.sortDirection
    (TableView.clicked TokenTable.initial
       ([TokenTable.f_price] ++ [TokenTable.f_token_name]))
  = TokenTable.desc.
Proof.
  split; [discriminate|].
  apply (clicked_last TokenTable.initial [TokenTable.f_price] TokenTable.f_token_name).
  discriminate.
Defined.

(** ** The rows of the table *)

Section Decimal_numerals.
Import Money Decimal_text.

Lemma after_digits_app l rest :
  Forall (fun c => is_digit c = true) l ->
  after_digits rest = rest ->
  after_digits (l ++ rest) = rest.
Proof.
  induction 1 as [|c l Hc _ IH]; intros Hrest; simpl; [done|].
  rewrite Hc. auto.
Qed.

(** A numeral with a point is read back with the number of its fraction
    digits. *)
Lemma decimal_places_numeral sign d int fraction :
  sign = [] \/ sign = ["-"%char] ->
  is_digit d = true ->
  Forall (fun c => is_digit c = true) int ->
  Forall (fun c => is_digit c = true) fraction -> fraction <> [] ->
  decimal_places
    (string_of_list_ascii (sign ++ (d :: int) ++ "."%char :: fraction))
  = Some (length fraction).
Proof.
  intros Hsign Hd Hint Hfr Hne.
  assert (Hrest : after_digits (int ++ "."%char :: fraction) = "."%char :: fraction)
    by (by apply after_digits_app).
  unfold decimal_places. rewrite list_ascii_of_string_of_list_ascii.
  assert (Hbody :
    match (d :: int) ++ "."%char :: fraction with
    | d :: rest =>
        if is_digit d then
          match after_digits rest with
          | [] => Some O
          | p :: fraction =>
              if Ascii.eqb p "." && forallb is_digit fraction
                 && negb (Nat.eqb (length fraction) 0)
              then Some (length fraction) else None
          end
        else None
    | [] => None
    end = Some (length fraction)).
  { simpl. rewrite Hd, Hrest. simpl. rewrite (forallb_digits _ Hfr).
    by destruct fraction. }
  destruct Hsign as [-> | ->]; simpl app; cbv beta iota zeta.
  - assert (Ascii.eqb d "-" = false) as ->; [|exact Hbody].
    apply Ascii.eqb_neq. intros ->. done.
  - change (Ascii.eqb "-" "-") with true. cbv iota. exact Hbody.
Qed.

End Decimal_numerals.

Section Rows.
Context `{Host}.
Import TokenTable TableView.

(** X9. The progress of a number below 10^21 is its numeral with two fraction
    digits, "0.00" for the number 0, where null shows "0". *)
Theorem formatProgress_two_places (q : Qc) :
  Z.abs (Qnum q) < 10 ^ 21 * Zpos (Qden q) ->
  exists s, formatProgress (JNum q) = Normal (JStr s) /\
            Decimal_text.decimal_places s = Some 2%nat.
Proof.
  intros Hq. unfold formatProgress, optional_toFixed, call_toFixed, Number_toFixed.
  simpl (100 <? 2)%nat. cbv iota.
  destruct (Z.leb_spec (10 ^ 21 * Z.pos (Qden q)) (Z.abs (Qnum q))) as [|_]; [lia|].
  cbv zeta. set (n := round_scaled 2 q). set (scale := (10 ^ N.of_nat 2)%N).
  destruct (digits_shape (n / scale)) as (d & ds & Hds & Hd & Hall).
  rewrite Hds.
  set (s := string_of_list_ascii
              (sign_of q ++ (d :: ds) ++ "."%char :: digits_fixed 2 (n mod scale))).
  assert (Hplaces : Decimal_text.decimal_places s = Some 2%nat).
  { subst s. rewrite (decimal_places_numeral (sign_of q) d ds
                        (digits_fixed 2 (n mod scale))).
    - by rewrite length_digits_fixed.
    - apply sign_of_cases.
    - done.
    - done.
    - apply digits_fixed_digits.
    - intros Hnil. by apply (f_equal length) in Hnil. }
  exists s. split; [|done].
  simpl. unfold or_else. simpl.
  rewrite bool_decide_eq_false_2; [done|].
  intros Hs. rewrite Hs in Hplaces. done.
Qed.


Lemma renderRow_total token : exists row, renderRow token = Normal row.
Proof.
  unfold renderRow, progressCell.
  destruct (TokenTable_formatCurrency_total (of_num (price token))) as [p ->].
  destruct (TokenTable_formatCurrency_total (of_num (market_cap token))) as [m ->].
  destruct (TokenTable_formatCurrency_total (of_num (volume_24h token))) as [c ->].
  destruct (formatProgress_schema (bonding_curve_progress token)) as [g ->].
  destruct (TokenTable_formatDate_total (of_str (creation_time token))) as [d ->].
  by eexists.
Qed.

Lemma renderTableRow_total token :
  exists row, renderTableRow token = Normal row /\
              key row = id token /\
              href row = "/tokens/" +:+ token_address token.
Proof.
  unfold renderTableRow. destruct (renderRow_total token) as [row ->].
  by eexists.
Qed.

Lemma Array_map_total {A B C} (f : A -> completion B) (g : B -> C) (h : A -> C)
    (l : list A) :
  (forall x, exists y, f x = Normal y /\ g y = h x) ->
  exists ys, Array_map f l = Normal ys /\ g <$> ys = h <$> l.
Proof.
  intros Hf. induction l as [|x l (ys & IH & Hys)]; simpl; [by exists []|].
  destruct (Hf x) as (y & -> & Hy). simpl. rewrite IH. simpl.
  exists (y :: ys). split; [done|]. rewrite !fmap_cons. by rewrite Hy, Hys.
Qed.

(** X10. The table never fails to render: whatever the rows and the sort
    state, it has one row for each token, keyed by the token's id and
    linked to the token's address, in the order of the sorted tokens. *)
Theorem TableView_render_rows st tokens :
  exists rows,
    TableView.render st tokens = Normal (headers st, rows) /\
    (fun r => (key r, href r)) <$> rows
    = (fun t => (id t, "/tokens/" +:+ token_address t)) <$> sortedTokens st tokens /\
    length rows = length tokens.
Proof.
  unfold TableView.render.
  destruct (Array_map_total renderTableRow (fun r => (key r, href r))
              (fun t => (id t, "/tokens/" +:+ token_address t))
              (sortedTokens st tokens)) as (rows & -> & Hrows).
  { intros t. destruct (renderTableRow_total t) as (r & -> & Hk & Hh).
    exists r. by rewrite Hk, Hh. }
  exists rows. split_and!; [done|done|].
  apply (f_equal length) in Hrows. rewrite !length_fmap in Hrows.
  rewrite Hrows. apply Permutation_length, Array_sort_perm.
Qed.

End Rows.

Lemma formatProgress_two_places_witness :
  exists s, TokenTable.formatProgress (H := Sample.host) (JNum 0%Qc) = Normal (JStr s) /\
            Decimal_text.decimal_places s = Some 2%nat.
Proof.
  apply (formatProgress_two_places (H := Sample.host) 0%Qc). reflexivity.
Defined.

(** ** The two fetch routines and the page *)

Section Page.
Context `{Host} `{Arith}.
Import Home Summary.

(** X11. [fetchTokens] never touches the statistics.  A query that succeeds
    replaces the rows by its data, by no rows if the data is null, and
    logs nothing; a query that fails, by rejection or with an error, logs
    that one error. *)
Theorem fetchTokens_outcome query st :
  stats (snd (fetchTokens query st)) = stats st /\
  (forall r, query = Normal r -> error r = None ->
     tokens (snd (fetchTokens query st)) = default [] (data r) /\
     console (snd (fetchTokens query st)) = console st) /\
  (forall e, query = Throw e \/ (exists r, query = Normal r /\ error r = Some e) ->
     console (snd (fetchTokens query st))
     = console st ++ [("Error fetching tokens:", e)]).
Proof.
  unfold fetchTokens, try_finally, try_catch, await, lift, mbind, M_bind,
    setLoading, setTokens, console_error, throw.
  split_and!.
  - destruct query as [r|e]; simpl; [|done]. by destruct (error r).
  - intros r -> Hr. simpl. by rewrite Hr.
  - intros e [-> | (r & -> & Hr)]; simpl; [done|]. by rewrite Hr.
Qed.

(** X12. [fetchStats] does not look at the [error] of its responses: where
    the four promises are fulfilled and the market capitalisations are
    not null, it sets the statistics from the counts, a null count as 0,
    and from the values, their sum over their number in the arithmetic of
    the host, whatever the errors, and logs nothing. *)
Theorem fetchStats_ignores_error r1 r2 r3 r4 caps st :
  data r4 = Some (Build_CapRow <$> caps) ->
  stats (snd (fetchStats (Normal r1) (Normal r2) (Normal r3) (Normal r4) st))
  = {| Dashboard.totalTokens := default 0 (count r1);
       Dashboard.kingsOfHill := default 0 (count r2);
       Dashboard.raydiumMigrated := default 0 (count r3);
       Dashboard.averageMarketCap := average caps |} /\
  console (snd (fetchStats (Normal r1) (Normal r2) (Normal r3) (Normal r4) st))
  = console st.
Proof.
  intros Hdata.
  unfold fetchStats, try_catch, await, lift, mbind, M_bind, setStats; simpl.
  rewrite Hdata. simpl. rewrite !or_0_default.
  by rewrite (averageMarketCap_average caps _ eq_refl).
Qed.

Lemma CapRow_rows (rows : list CapRow) : rows = Build_CapRow <$> (market_cap <$> rows).
Proof.
  induction rows as [|[cap] rows IH]; [done|]. rewrite !fmap_cons. by f_equal.
Qed.

(** X13. [fetchStats] either sets the statistics and logs nothing, or logs one
    error and leaves the statistics as they were.  It sets them where the
    four promises are fulfilled and the market capitalisations are not
    null: each count is the one returned, 0 for null, and the average is
    that of the values returned.  It logs where a promise is rejected or
    the market capitalisations are null. *)
Theorem fetchStats_sets_or_logs total kings raydium caps st :
  (exists r1 r2 r3 r4 rows,
     total = Normal r1 /\ kings = Normal r2 /\ raydium = Normal r3 /\
     caps = Normal r4 /\ data r4 = Some rows /\
     stats (snd (fetchStats total kings raydium caps st))
     = {| Dashboard.totalTokens := default 0 (count r1);
          Dashboard.kingsOfHill := default 0 (count r2);
          Dashboard.raydiumMigrated := default 0 (count r3);
          Dashboard.averageMarketCap := average (market_cap <$> rows) |} /\
     console (snd (fetchStats total kings raydium caps st)) = console st) \/
  (((exists e, total = Throw e) \/ (exists e, kings = Throw e) \/
    (exists e, raydium = Throw e) \/ (exists e, caps = Throw e) \/
    (exists r, caps = Normal r /\ data r = None)) /\
   stats (snd (fetchStats total kings raydium caps st)) = stats st /\
   exists e,
     console (snd (fetchStats total kings raydium caps st))
     = console st ++ [("Error fetching stats:", e)]).
Proof.
  unfold fetchStats, try_catch, await, lift, mbind, M_bind, setStats,
    console_error.
  destruct total as [r1|e]; simpl; [|right; eauto 10].
  destruct kings as [r2|e]; simpl; [|right; eauto 10].
  destruct raydium as [r3|e]; simpl; [|right; eauto 10].
  destruct caps as [r4|e]; simpl; [|right; eauto 10].
  destruct (data r4) as [rows|] eqn:Hdata; simpl; [|right; eauto 10].
  left. exists r1, r2, r3, r4, rows. split_and!; try done.
  rewrite !or_0_default. f_equal.
  apply averageMarketCap_average. by rewrite <- CapRow_rows.
Qed.

(** X15. The two routines started on mount write different cells: run in
    either order, they leave the same rows, the same loading flag and the
    same statistics, and log the same errors. *)
Theorem mount_order tokens total kings raydium caps st :
  Home.tokens (HomeView.mount tokens total kings raydium caps st)
  = Home.tokens (HomeView.mount_stats_first tokens total kings raydium caps st) /\
  loading (HomeView.mount tokens total kings raydium caps st)
  = loading (HomeView.mount_stats_first tokens total kings raydium caps st) /\
  stats (HomeView.mount tokens total kings raydium caps st)
  = stats (HomeView.mount_stats_first tokens total kings raydium caps st) /\
  console (HomeView.mount tokens total kings raydium caps st)
  ≡ₚ console (HomeView.mount_stats_first tokens total kings raydium caps st).
Proof.
  unfold HomeView.mount, HomeView.mount_stats_first,
    fetchTokens, try_finally, fetchStats, try_catch, await, lift, mbind, M_bind,
    setLoading, setTokens, setStats, console_error, throw.
  destruct tokens as [r|e0]; simpl; [destruct (error r); simpl|];
    (destruct total as [r1|e1]; simpl;
     [destruct kings as [r2|e2]; simpl;
      [destruct raydium as [r3|e3]; simpl;
       [destruct caps as [r4|e4]; simpl;
        [destruct (validMarketCaps (data r4)); simpl|]|]|]|]);
    split_and!; try done;
    rewrite <- !app_assoc; apply Permutation_app_head, Permutation_swap.
Qed.

(** X16. The page shows the loading text at first.  Once [fetchTokens] has
    completed, however it went, it shows the table, with a row for each
    token of the state; after a first load that failed this is the empty
    table. *)
Theorem page_after_fetchTokens query st sort :
  (exists figures,
     HomeView.render Home.initial sort
     = Normal (figures, HomeView.LoadingText "Loading tokens...")) /\
  (exists figures rows,
     HomeView.render (snd (fetchTokens query st)) sort
     = Normal (figures, HomeView.Table (TableView.headers sort) rows) /\
     TableView.key <$> rows
     = TokenTable.id <$>
         TokenTable.sortedTokens sort (Home.tokens (snd (fetchTokens query st)))) /\
  (failed query ->
   exists figures,
     HomeView.render (snd (fetchTokens query Home.initial)) sort
     = Normal (figures, HomeView.Table (TableView.headers sort) [])).
Proof.
  assert (Hload : forall q s, loading (snd (fetchTokens q s)) = false).
  { intros q s.
    unfold fetchTokens, try_finally, try_catch, await, lift, mbind, M_bind,
      setLoading, setTokens, console_error, throw.
    destruct q as [r|e]; simpl; [|done]. by destruct (error r). }
  assert (Hfail : failed query ->
                  Home.tokens (snd (fetchTokens query Home.initial)) = []).
  { unfold fetchTokens, try_finally, try_catch, await, lift, mbind, M_bind,
      setLoading, setTokens, console_error, throw, failed.
    destruct query as [r|e]; simpl; [|done].
    destruct (error r); simpl; [done|]. by intros [? [=]]. }
  split_and!.
  - by eexists.
  - unfold HomeView.render. simpl. rewrite Hload.
    unfold TableView.render.
    destruct (Array_map_total TableView.renderTableRow TableView.key TokenTable.id
                (TokenTable.sortedTokens sort (Home.tokens (snd (fetchTokens query st)))))
      as (rows & -> & Hrows).
    { intros t. destruct (renderTableRow_total t) as (r & -> & Hk & _). by exists r. }
    by eexists _, rows.
  - intros Hq. unfold HomeView.render. simpl. rewrite Hload, (Hfail Hq).
    by eexists.
Qed.

End Page.

Lemma fetchTokens_outcome_witness :
  Home.tokens (snd (Home.fetchTokens (Normal Sample_rows.answered) Home.initial))
  = Sample.rows /\
  Home.console (snd (Home.fetchTokens (Normal Sample_rows.answered) Home.initial))
  = [].
Proof.
  apply (proj1 (proj2 (fetchTokens_outcome (Normal Sample_rows.answered) Home.initial))
           Sample_rows.answered eq_refl eq_refl).
Defined.

Lemma fetchStats_ignores_error_witness :
  Dashboard.totalTokens
    (Home.stats (snd (Home.fetchStats (Normal (Summary.refused Sample.outage))
                        (Normal (Summary.counted (Some 3)))
                        (Normal (Summary.counted (Some 40)))
                        (Normal (Summary.listed [Some (Qc_of_Z 500); None]))
                        Sample.shown)))
  = 0.
Proof.
  rewrite (proj1 (fetchStats_ignores_error (Summary.refused Sample.outage)
                    (Summary.counted (Some 3)) (Summary.counted (Some 40))
                    (Summary.listed [Some (Qc_of_Z 500); None])
                    [Some (Qc_of_Z 500); None] Sample.shown eq_refl)).
  reflexivity.
Defined.

Lemma page_after_fetchTokens_witness :
  exists figures,
    HomeView.render (H := Sample.host)
      (snd (Home.fetchTokens (Normal (Summary.refused Sample.outage)) Home.initial))
      TokenTable.initial
    = Normal (figures, HomeView.Table (TableView.headers TokenTable.initial) []).
Proof.
  apply (proj2 (proj2 (page_after_fetchTokens (H := Sample.host)
                         (Normal (Summary.refused Sample.outage)) Sample.shown
                         TokenTable.initial))).
  by eexists.
Defined.

(** ** The summary *)

Section Summary_figures.
Context `{Host}.
Import Home Summary.

Lemma Math_round_integer n : Math_round (Some (Qc_of_Z n)) = Some (Qc_of_Z n).
Proof.
  unfold Math_round. do 2 f_equal.
  change (Qfloor (Qred (inject_Z n + Qred (1 # 2))) = n).
  rewrite (Qfloor_comp _ ((n * 2 + 1) # 2)).
  - unfold Qfloor. simpl. rewrite Z.div_add_l by lia. change (1 / 2) with 0. lia.
  - rewrite Qred_correct. unfold Qplus, Qeq, inject_Z; simpl. lia.
Qed.

Lemma formatNumber_count n :
  Dashboard.formatNumber (JNum (Qc_of_Z n))
  = NumberFormat_default_format (Some (Qc_of_Z n)).
Proof.
  unfold Dashboard.formatNumber. cbn [ToNumber]. by rewrite Math_round_integer.
Qed.

(** X17. The three counts are shown as they are, without rounding, and the
    average as an amount in US dollars without fraction digits. *)
Theorem Dashboard_render_figures stats :
  exists avg,
    Dashboard.render stats
    = Normal [ NumberFormat_default_format (Some (Qc_of_Z (Dashboard.totalTokens stats)));
               NumberFormat_default_format (Some (Qc_of_Z (Dashboard.kingsOfHill stats)));
               NumberFormat_default_format
                 (Some (Qc_of_Z (Dashboard.raydiumMigrated stats)));
               avg ] /\
    Money.fraction_digits avg = Some 0%nat.
Proof.
  destruct (NumberFormat_format_digits
              {| minimumFractionDigits := 0; maximumFractionDigits := 0 |}
              (Dashboard.averageMarketCap stats)) as (k & Hk & Hle); [simpl; lia|].
  simpl in Hle. replace k with 0%nat in Hk by lia.
  exists (NumberFormat_format
            {| minimumFractionDigits := 0; maximumFractionDigits := 0 |}
            (JNum (Dashboard.averageMarketCap stats))).
  split; [|exact Hk].
  unfold Dashboard.render. by rewrite !formatNumber_count.
Qed.

End Summary_figures.

Section Average.
Import Home Summary.






End Average.

